(** * g1asm: the assembler of the g1 instruction set

    A shallow embedding of [src/g1asm/assembler.py]: the rply lexer rules,
    the diagnostics [error] and [warn], the token scan of [assemble_tokens]
    with its label table, the argument resolver [parse_argument_token] and
    the driver [assemble].

    Python values are embedded as follows: [int] is [Z], [str] is [string],
    a [dict] is a [gmap], the lexer's token iterator is the list of tokens it
    still has to yield together with the exception it raises once they are
    exhausted, and standard output is the list of the texts printed so far.

    A [string] is a sequence of 8-bit characters, read as the code points
    0 to 255: the embedding covers the source texts whose characters all
    lie there. On these the class [\d] is the digits 0 to 9, and indices
    and columns count characters. *)

From Stdlib Require Import ZArith Ascii DecimalString DecimalPos DecimalZ Lia.
From stdpp Require Import base option list gmap strings.

Local Open Scope Z_scope.

(** ** Python primitives *)

Module Py.

(** Characters that a Rocq string literal cannot hold directly. *)
Definition LF : ascii := "010"%char.
Definition ESC : ascii := "027"%char.
Definition DQUOTE : ascii := "034"%char.

Definition chr (c : ascii) : string := String c EmptyString.

(** [str(n)] for an [int]. The numbers that the assembler prints are line
    numbers and argument counts, far below the number of digits at which
    the interpreter refuses the conversion. *)
Definition str (n : Z) : string := NilZero.string_of_int (Z.to_int n).

(** [len(s)]. *)
Definition len (s : string) : Z := Z.of_nat (String.length s).

(** The integer that a text of an optional minus sign and decimal digits
    denotes. *)
Definition decimal_value (s : string) : option Z :=
  Z.of_int <$> NilZero.int_of_string s.

(** The digits of such a text: the text without its sign. *)
Definition digits (s : string) : string :=
  match s with
  | String c s' => if Ascii.eqb c "-" then s' else s
  | EmptyString => s
  end.

(** The interpreter's limit on the number of digits that [int] converts
    ([sys.int_info.default_max_str_digits]). *)
Definition MAX_STR_DIGITS : Z := 4300.

(** [int(s)] on the texts the lexer can hand over: an optional minus sign
    and decimal digits. [None] is Python's [ValueError], which [int]
    raises for a text that is not of that form and for a text of more
    than [MAX_STR_DIGITS] digits; the sign does not count, leading zeros
    do. *)
Definition int (s : string) : option Z :=
  if MAX_STR_DIGITS <? len (digits s) then None else decimal_value s.

(** [s * n]: no copies when [n] is not positive. *)
Fixpoint repeat_nat (s : string) (n : nat) : string :=
  match n with
  | O => EmptyString
  | S n' => s +:+ repeat_nat s n'
  end.
Definition mul (s : string) (n : Z) : string := repeat_nat s (Z.to_nat n).

(** [s[1:]] and [s[:-1]]. *)
Definition tail (s : string) : string :=
  match s with
  | EmptyString => EmptyString
  | String _ s' => s'
  end.

Fixpoint init (s : string) : string :=
  match s with
  | EmptyString => EmptyString
  | String c EmptyString => EmptyString
  | String c s' => String c (init s')
  end.

(** [s.split('\n')]. *)
Fixpoint split_lines_aux (cur : string) (s : string) : list string :=
  match s with
  | EmptyString => [cur]
  | String c s' =>
      if Ascii.eqb c LF then cur :: split_lines_aux EmptyString s'
      else split_lines_aux (cur +:+ chr c) s'
  end.
Definition split_lines (s : string) : list string :=
  split_lines_aux EmptyString s.

(** [l[i]] with Python's negative indices; [None] is [IndexError]. *)
Definition index {A} (l : list A) (i : Z) : option A :=
  if 0 <=? i then l !! Z.to_nat i
  else if - Z.of_nat (length l) <=? i then l !! Z.to_nat (Z.of_nat (length l) + i)
  else None.

End Py.

(** ** Tokens *)

Inductive TokenName :=
  | META_VARIABLE | NUMBER | ADDRESS | LABEL_NAME | NAME | COMMENT | NEWLINE.

Global Instance TokenName_eq_dec : EqDecision TokenName.
Proof. solve_decision. Defined.

(** rply's [SourcePosition]: [idx] is 0-based, [lineno] and [colno] are
    1-based. *)
Record SourcePosition := mkPos { idx : nat; lineno : nat; colno : nat }.

Record Token := mkToken {
  name : TokenName;
  value : string;
  source_pos : SourcePosition
}.

(** ** The lexer

    [lg.add] registers the rules in this order; rply tries them in order at
    the current index and takes the first that matches ([re.match], greedy,
    no flags). Each matcher returns the lexeme and the text after it. *)

Module Lexer.

Definition code (c : ascii) : nat := nat_of_ascii c.

(** [\d] on the 8-bit characters: among the code points 0 to 255 the
    decimal digits are 0 to 9. *)
Definition is_digit (c : ascii) : bool :=
  ((48 <=? code c) && (code c <=? 57))%nat.

(** The range [A-z]: every code point from 65 to 122. *)
Definition is_A_z (c : ascii) : bool :=
  ((65 <=? code c) && (code c <=? 122))%nat.

(** [[A-z0-9_]] *)
Definition is_label_char (c : ascii) : bool :=
  is_A_z c || is_digit c || Ascii.eqb c "_".

(** [[A-z_]] *)
Definition is_name_start (c : ascii) : bool :=
  is_A_z c || Ascii.eqb c "_".

(** [.] without DOTALL *)
Definition is_not_newline (c : ascii) : bool := negb (Ascii.eqb c Py.LF).

(** The longest prefix whose characters satisfy [p], and the rest. *)
Fixpoint span (p : ascii -> bool) (s : string) : string * string :=
  match s with
  | EmptyString => (EmptyString, EmptyString)
  | String c s' =>
      if p c then let '(run, rest) := span p s' in (String c run, rest)
      else (EmptyString, s)
  end.

(** A class repeated with [+]: the greedy run, which must not be empty. *)
Definition plus (p : ascii -> bool) (s : string) : option (string * string) :=
  match span p s with
  | (EmptyString, _) => None
  | (run, rest) => Some (run, rest)
  end.

Definition prefixed (c : ascii) (m : option (string * string))
  : option (string * string) :=
  '(lexeme, rest) ← m; Some (String c lexeme, rest).

(** [#[A-z]+] *)
Definition match_META_VARIABLE (s : string) : option (string * string) :=
  match s with
  | String c s' => if Ascii.eqb c "#" then prefixed c (plus is_A_z s') else None
  | EmptyString => None
  end.

(** [-?\d+]: when the minus sign is not followed by a digit, the
    alternative without it fails on the minus sign itself. *)
Definition match_NUMBER (s : string) : option (string * string) :=
  match s with
  | String c s' =>
      if Ascii.eqb c "-" then prefixed c (plus is_digit s') else plus is_digit s
  | EmptyString => None
  end.

(** [\$\d+] *)
Definition match_ADDRESS (s : string) : option (string * string) :=
  match s with
  | String c s' => if Ascii.eqb c "$" then prefixed c (plus is_digit s') else None
  | EmptyString => None
  end.

(** [[A-z0-9_]+:]: the colon is outside the class, so giving characters
    of the greedy run back never helps. *)
Definition match_LABEL_NAME (s : string) : option (string * string) :=
  match plus is_label_char s with
  | Some (run, String c rest) =>
      if Ascii.eqb c ":" then Some (run +:+ Py.chr c, rest) else None
  | _ => None
  end.

(** [[A-z_][A-z0-9_]*] *)
Definition match_NAME (s : string) : option (string * string) :=
  match s with
  | String c s' =>
      if is_name_start c
      then let '(run, rest) := span is_label_char s' in Some (String c run, rest)
      else None
  | EmptyString => None
  end.

(** [;.*] *)
Definition match_COMMENT (s : string) : option (string * string) :=
  match s with
  | String c s' =>
      if Ascii.eqb c ";"
      then let '(run, rest) := span is_not_newline s' in Some (String c run, rest)
      else None
  | EmptyString => None
  end.

(** [\n] *)
Definition match_NEWLINE (s : string) : option (string * string) :=
  match s with
  | String c s' => if Ascii.eqb c Py.LF then Some (Py.chr c, s') else None
  | EmptyString => None
  end.

Definition rules : list (TokenName * (string -> option (string * string))) :=
  [ (META_VARIABLE, match_META_VARIABLE);
    (NUMBER, match_NUMBER);
    (ADDRESS, match_ADDRESS);
    (LABEL_NAME, match_LABEL_NAME);
    (NAME, match_NAME);
    (COMMENT, match_COMMENT);
    (NEWLINE, match_NEWLINE) ].

(** The first rule that matches at the start of [s]. *)
Fixpoint first_match (rs : list (TokenName * (string -> option (string * string))))
    (s : string) : option (TokenName * string * string) :=
  match rs with
  | [] => None
  | (n, m) :: rs' =>
      match m s with
      | Some (lexeme, rest) => Some (n, lexeme, rest)
      | None => first_match rs' s
      end
  end.

(** [lg.ignore(r' ')]: spaces before a token are skipped one at a time. *)
Fixpoint skip_ignored (s : string) (i : nat) : string * nat :=
  match s with
  | String c s' => if Ascii.eqb c " " then skip_ignored s' (S i) else (s, i)
  | EmptyString => (s, i)
  end.

(** The state of rply's [LexerStream]: the text from the current index on,
    the index, the current line, the index at which that line starts, and
    the column of the last token returned. *)
Record Stream := mkStream {
  text : string;
  at_idx : nat;
  at_lineno : nat;
  line_start : nat;
  last_colno : nat
}.

Definition start (s : string) : Stream :=
  {| text := s; at_idx := 0; at_lineno := 1; line_start := 0; last_colno := 1 |}.

Inductive Next :=
  | Yield (t : Token) (s : Stream)
  | Stop
  | Unrecognized (pos : SourcePosition).

(** [LexerStream.next]. A lexeme holds a line feed only when it is the
    NEWLINE token. *)
Definition next (st : Stream) : Next :=
  let '(s, i) := skip_ignored (text st) (at_idx st) in
  match s with
  | EmptyString => Stop
  | _ =>
      match first_match rules s with
      | Some (n, lexeme, rest) =>
          let col := (i - line_start st + 1)%nat in
          let i' := (i + String.length lexeme)%nat in
          let tok := mkToken n lexeme (mkPos i (at_lineno st) col) in
          Yield tok
            (match n with
             | NEWLINE => mkStream rest i' (S (at_lineno st)) i' col
             | _ => mkStream rest i' (at_lineno st) (line_start st) col
             end)
      | None => Unrecognized (mkPos i (at_lineno st) (last_colno st))
      end
  end.

(** All the tokens the stream yields, and how it ends: [None] when the
    text is exhausted, the position of the failure otherwise. Every token
    takes at least one character, so [fuel] above the length of the text
    is never used up ([run_fuel] below). *)
Fixpoint run (fuel : nat) (st : Stream) : list Token * option SourcePosition :=
  match fuel with
  | O => ([], None)
  | S fuel' =>
      match next st with
      | Yield t st' => let '(ts, e) := run fuel' st' in (t :: ts, e)
      | Stop => ([], None)
      | Unrecognized pos => ([], Some pos)
      end
  end.

(** [lexer.lex(s)], forced. *)
Definition lex (s : string) : list Token * option SourcePosition :=
  run (S (String.length s)) (start s).

End Lexer.

(** ** Effects: standard output and exceptions *)

Inductive Exception :=
  | SystemExit
  | StopIteration
  | ValueError
  | IndexError
  | KeyError
  | LexingError (pos : SourcePosition).

Global Instance SourcePosition_eq_dec : EqDecision SourcePosition.
Proof. solve_decision. Defined.

Global Instance Exception_eq_dec : EqDecision Exception.
Proof. solve_decision. Defined.

(** The outcome of a computation. [OutOfFuel] belongs to the embedding
    only: it marks a loop whose iteration bound was too small, and
    [scan_fuel_enough] below shows that [assemble_tokens] never meets it. *)
Inductive Result (A : Type) :=
  | Return (a : A)
  | Raise (e : Exception)
  | OutOfFuel.
Arguments Return {A} a.
Arguments Raise {A} e.
Arguments OutOfFuel {A}.

(** A computation takes what has been printed so far and gives what has been
    printed after it, with its outcome. *)
Definition M (A : Type) : Type := list string -> list string * Result A.

Definition ret {A} (a : A) : M A := fun out => (out, Return a).
Definition raise {A} (e : Exception) : M A := fun out => (out, Raise e).
Definition bind {A B} (m : M A) (k : A -> M B) : M B :=
  fun out =>
    match m out with
    | (out', Return a) => k a out'
    | (out', Raise e) => (out', Raise e)
    | (out', OutOfFuel) => (out', OutOfFuel)
    end.

Notation "x <- m ; k" := (bind m (fun x => k))
  (at level 20, m at level 100, k at level 200, only parsing).
Notation "' p <- m ; k" := (bind m (fun x => match x with p => k end))
  (at level 20, p pattern, m at level 100, k at level 200, only parsing).
Notation "m ;; k" := (bind m (fun _ => k))
  (at level 100, k at level 200, only parsing, right associativity).

(** [print(s)] and [print(s, end='')]. *)
Definition line_of (s : string) : string := s +:+ Py.chr Py.LF.
Definition print (s : string) : M unit :=
  fun out => (out ++ [line_of s], Return tt).
Definition print_end_empty (s : string) : M unit :=
  fun out => (out ++ [s], Return tt).

(** An [option] read as a Python operation that raises [e] on [None]. *)
Definition or_raise {A} (e : Exception) (o : option A) : M A :=
  match o with
  | Some a => ret a
  | None => raise e
  end.

(** [if c: m] *)
Definition when (c : bool) (m : M unit) : M unit := if c then m else ret tt.

(** ** Constants *)

Inductive AssemblerState := META | PROCEDURES.

Global Instance AssemblerState_eq_dec : EqDecision AssemblerState.
Proof. solve_decision. Defined.

Definition META_VARIABLES : gmap string Z :=
  <["memory" := 128]> (<["width" := 100]> (<["height" := 100]> (<["tickrate" := 60]> ∅))).

Definition INT_RANGE_LOWER : Z := - 2 ^ 31.
Definition INT_RANGE_UPPER : Z := 2 ^ 31 - 1.

Definition COLOR_ERROR : string := Py.chr Py.ESC +:+ "[31m".
Definition COLOR_WARN : string := Py.chr Py.ESC +:+ "[33m".
Definition COLOR_RESET : string := Py.chr Py.ESC +:+ "[0m".

(** ** Diagnostics *)

(** The two lines that [error] and [warn] print below the message: the
    source line behind its number, and the caret. *)
Definition line_number (pos : SourcePosition) : Z := Z.of_nat (lineno pos) - 1.
Definition column_number (pos : SourcePosition) : Z := Z.of_nat (colno pos) - 1.

Definition shown_line (pos : SourcePosition) (line : string) : string :=
  Py.str (line_number pos + 1) +:+ " | " +:+ line.

Definition caret_line (pos : SourcePosition) : string :=
  Py.mul " " (Py.len (Py.str (line_number pos)) + 3 + column_number pos) +:+ "^".

(** [error(token, source_lines, message)]; only the position of the token
    is used, and the [LexingError] that [assemble] passes has one too.
    [sys.exit()] raises [SystemExit]. *)
Definition error {A} (pos : SourcePosition) (source_lines : list string)
    (message : string) : M A :=
  print (COLOR_ERROR +:+ "ASSEMBLER ERROR: " +:+ message) ;;
  line <- or_raise IndexError (Py.index source_lines (line_number pos));
  print (shown_line pos line) ;;
  print (caret_line pos) ;;
  print_end_empty COLOR_RESET ;;
  raise SystemExit.

Definition warn (pos : SourcePosition) (source_lines : list string)
    (message : string) : M unit :=
  print (COLOR_WARN +:+ "ASSEMBLER WARNING: " +:+ message) ;;
  line <- or_raise IndexError (Py.index source_lines (line_number pos));
  print (shown_line pos line) ;;
  print (caret_line pos) ;;
  print_end_empty COLOR_RESET.

(** What a call of [error] that finds its source line leaves on standard
    output. *)
Definition error_report (pos : SourcePosition) (line message : string)
    : list string :=
  [ line_of (COLOR_ERROR +:+ "ASSEMBLER ERROR: " +:+ message);
    line_of (shown_line pos line);
    line_of (caret_line pos);
    COLOR_RESET ].

Definition warn_report (pos : SourcePosition) (line message : string)
    : list string :=
  [ line_of (COLOR_WARN +:+ "ASSEMBLER WARNING: " +:+ message);
    line_of (shown_line pos line);
    line_of (caret_line pos);
    COLOR_RESET ].

(** ** Token streams *)

(** A lexer stream that has not finished: the tokens it will still yield,
    in order. What it raises after the last of them is fixed for the whole
    run: [StopIteration] at the end of the text, [LexingError] where no
    rule matches. *)
Definition tokens_next (fin : Exception) (tokens : list Token)
    : M (Token * list Token) :=
  match tokens with
  | t :: tokens' => ret (t, tokens')
  | [] => raise fin
  end.

(** [get_until_newline(tokens)] with the stream it leaves. *)
Fixpoint get_until_newline_from (fin : Exception) (tokens : list Token)
    (returned_tokens : list Token) : M (list Token * list Token) :=
  match tokens with
  | [] => raise fin
  | token :: tokens' =>
      match name token with
      | COMMENT => get_until_newline_from fin tokens' returned_tokens
      | NEWLINE => ret (returned_tokens, tokens')
      | _ => get_until_newline_from fin tokens' (returned_tokens ++ [token])
      end
  end.

Definition get_until_newline (fin : Exception) (tokens : list Token)
    : M (list Token * list Token) :=
  get_until_newline_from fin tokens [].

(** ** Resolved programs *)

(** A resolved argument is an [int] or a [str]. *)
Inductive Value :=
  | VInt (n : Z)
  | VStr (s : string).

Global Instance Value_eq_dec : EqDecision Value.
Proof. solve_decision. Defined.

Definition is_int (v : Value) : bool :=
  match v with
  | VInt _ => true
  | VStr _ => false
  end.


(** [instruction_data]: the mnemonic, the resolved arguments and, when the
    source is included, the 0-based line. *)
Record Instruction := mkInstruction {
  mnemonic : string;
  arguments : list Value;
  source_line : option Z
}.

(** [output_json], with a field per key. *)
Record Program := mkProgram {
  meta : gmap string Z;
  instructions : list Instruction;
  tick : option Z;
  start : option Z;
  source : option (list string)
}.

(** The local variables of [assemble_tokens] during its loop over the
    tokens. *)
Record ScanState := mkScan {
  json_meta : gmap string Z;
  labels : gmap string Z;
  raw_instructions : list (Token * list Token);
  instruction_index : Z;
  compiler_state : AssemblerState
}.

Definition initial_scan (compiler_state : AssemblerState) : ScanState :=
  {| json_meta := META_VARIABLES;
     labels := ∅;
     raw_instructions := [];
     instruction_index := 0;
     compiler_state := compiler_state |}.

Definition quoted (s : string) : string :=
  Py.chr Py.DQUOTE +:+ s +:+ Py.chr Py.DQUOTE.

Definition arity_message (expected : Z) (instruction : string) (got : Z) : string :=
  "Expected " +:+ Py.str expected +:+ " argument(s) for instruction "
    +:+ quoted instruction +:+ " but got " +:+ Py.str got +:+ ".".

Definition integer_range_message (text : string) : string :=
  "Integer value " +:+ text +:+ " is outside the 32 bit signed integer range.".

Definition address_range_message (text : string) : string :=
  "Address value " +:+ text +:+ " is outside the 32 bit signed integer range.".

Definition duplicate_label_message (label_name : string) : string :=
  "Label " +:+ quoted label_name +:+ " declared more than once.".

Definition out_of_range (n : Z) : bool :=
  (n <? INT_RANGE_LOWER) || (n >? INT_RANGE_UPPER).

(** [[f(x) for x in l]] *)
Fixpoint for_each {A B} (f : A -> M B) (l : list A) : M (list B) :=
  match l with
  | [] => ret []
  | x :: l' => y <- f x; ys <- for_each f l'; ret (y :: ys)
  end.

(** ** The assembler *)

Section Catalog.

(** The tables of [g1asm.instructions], which is not among the sources:
    the mnemonics, their argument counts, and the mnemonics that assign
    to their first argument. *)
Variable INSTRUCTIONS : gset string.
Variable ARGUMENT_COUNT_LOOKUP : gmap string Z.
Variable ASSIGNMENT_INSTRUCTIONS : gset string.

Section Run.

(** What the token stream raises once it has yielded its last token,
    and the lines of the source. *)
Variable fin : Exception.
Variable source_lines : list string.

(** The argument resolver. *)
Definition parse_argument_token (token : Token) (labels : gmap string Z)
    : M Value :=
  match name token with
  | NUMBER =>
      parsed <- or_raise ValueError (Py.int (value token));
      when (out_of_range parsed)
        (error (source_pos token) source_lines
           (integer_range_message (value token))) ;;
      ret (VInt parsed)
  | NAME =>
      when (bool_decide (labels !! value token = None))
        (error (source_pos token) source_lines
           ("Undefined label " +:+ quoted (value token) +:+ ".")) ;;
      index <- or_raise KeyError (labels !! value token);
      ret (VInt index)
  | ADDRESS =>
      parsed_address <- or_raise ValueError (Py.int (Py.tail (value token)));
      when (out_of_range parsed_address)
        (error (source_pos token) source_lines
           (address_range_message (value token))) ;;
      ret (VStr (value token))
  | _ => ret (VStr (value token))
  end.

(** One iteration of [for token in tokens]: the branch for [token],
    which may take further tokens from the stream. *)
Definition scan_token (token : Token) (tokens : list Token) (st : ScanState)
    : M (list Token * ScanState) :=
  match name token with
  | META_VARIABLE =>
      when (bool_decide (compiler_state st ≠ META))
        (error (source_pos token) source_lines
           "Found meta variable outside file header.") ;;
      let meta_variable_name := Py.tail (value token) in
      when (bool_decide (META_VARIABLES !! meta_variable_name = None))
        (error (source_pos token) source_lines
           ("Unrecognized meta variable " +:+ quoted meta_variable_name +:+ ".")) ;;
      '(value_token, tokens') <- tokens_next fin tokens;
      n <- or_raise ValueError (Py.int (value value_token));
      ret (tokens',
           mkScan (<[meta_variable_name := n]> (json_meta st)) (labels st)
             (raw_instructions st) (instruction_index st) (compiler_state st))
  | LABEL_NAME =>
      let label_name := Py.init (value token) in
      match labels st !! label_name with
      | Some _ =>
          warn (source_pos token) source_lines
            (duplicate_label_message label_name) ;;
          ret (tokens,
               mkScan (json_meta st) (labels st) (raw_instructions st)
                 (instruction_index st) PROCEDURES)
      | None =>
          ret (tokens,
               mkScan (json_meta st)
                 (<[label_name := instruction_index st]> (labels st))
                 (raw_instructions st) (instruction_index st) PROCEDURES)
      end
  | NAME =>
      when (bool_decide (value token ∉ INSTRUCTIONS))
        (error (source_pos token) source_lines
           ("Unrecognized instruction " +:+ quoted (value token) +:+ ".")) ;;
      instruction_arg_amount <-
        or_raise KeyError (ARGUMENT_COUNT_LOOKUP !! value token);
      '(instruction_args, tokens') <- get_until_newline fin tokens;
      when (bool_decide (Z.of_nat (length instruction_args) ≠ instruction_arg_amount))
        (error (source_pos token) source_lines
           (arity_message instruction_arg_amount (value token)
              (Z.of_nat (length instruction_args)))) ;;
      ret (tokens',
           mkScan (json_meta st) (labels st)
             (raw_instructions st ++ [(token, instruction_args)])
             (instruction_index st + 1) (compiler_state st))
  | NUMBER | ADDRESS =>
      error (source_pos token) source_lines "Value outside of instruction."
  | COMMENT | NEWLINE => ret (tokens, st)
  end.

(** [for token in tokens: ...]. Each iteration takes at least one token
    off the stream, so a [fuel] of the number of tokens is enough. The
    loop ends when the stream raises [StopIteration]; a [LexingError]
    goes through. *)
Fixpoint scan (fuel : nat) (tokens : list Token) (st : ScanState)
    : M ScanState :=
  match tokens with
  | [] =>
      match fin with
      | StopIteration => ret st
      | e => raise e
      end
  | token :: tokens' =>
      match fuel with
      | O => fun out => (out, OutOfFuel)
      | S fuel' =>
          '(tokens'', st') <- scan_token token tokens' st;
          scan fuel' tokens'' st'
      end
  end.

(** The body of the loop over [raw_instructions]. *)
Definition resolve_instruction (include_source : bool)
    (labels : gmap string Z) (raw : Token * list Token) : M Instruction :=
  let '(instruction_name_token, instruction_args_tokens) := raw in
  let instruction_name := value instruction_name_token in
  instruction_args <-
    for_each (fun t => parse_argument_token t labels) instruction_args_tokens;
  first_argument <- or_raise IndexError (Py.index instruction_args 0);
  when (bool_decide (instruction_name ∈ ASSIGNMENT_INSTRUCTIONS)
        && is_int first_argument
        && match first_argument with VInt n => n <=? 11 | VStr _ => false end)
    (first_token <- or_raise IndexError (Py.index instruction_args_tokens 0);
     warn (source_pos first_token) source_lines
       "Assignment to a reserved memory location.") ;;
  ret (mkInstruction instruction_name instruction_args
         (if include_source
          then Some (line_number (source_pos instruction_name_token))
          else None)).

Definition assemble_tokens (tokens : list Token)
    (compiler_state : AssemblerState) (include_source : bool) : M Program :=
  st <- scan (length tokens) tokens (initial_scan compiler_state);
  instructions <-
    for_each (resolve_instruction include_source (labels st)) (raw_instructions st);
  tick <- match labels st !! "tick" with
          | Some index => ret (Some index)
          | None =>
              print ("WARNING: " +:+ quoted "tick" +:+ " label not found in program.") ;;
              ret None
          end;
  ret (mkProgram (json_meta st) instructions tick (labels st !! "start")
         (if include_source then Some source_lines else None)).

End Run.

(** [try: ... except LexingError as e: error(e, ...)] *)
Definition except_LexingError {A} (m : M A) (handler : SourcePosition -> M A)
    : M A :=
  fun out =>
    match m out with
    | (out', Raise (LexingError pos)) => handler pos out'
    | r => r
    end.

(** [assemble] up to the assembled [output_json]: the source text is
    given instead of read from [input_path], no data file is passed, and
    the encoding of the result is left to its collaborators. *)
Definition assemble (source_code : string) (include_source : bool) : M Program :=
  let source_lines := Py.split_lines source_code in
  let '(tokens, failure) := Lexer.lex (source_code +:+ Py.chr Py.LF) in
  let fin := match failure with
             | None => StopIteration
             | Some pos => LexingError pos
             end in
  except_LexingError
    (assemble_tokens fin source_lines tokens META include_source)
    (fun pos => error pos source_lines "Unrecognized token.").

End Catalog.

(** * Properties *)

(** ** The effect monad *)

Definition returns {A} (r : list string * Result A) : bool :=
  match r with
  | (_, Return _) => true
  | _ => false
  end.

Lemma bind_Return {A B} (m : M A) (k : A -> M B) out out' a :
  m out = (out', Return a) -> bind m k out = k a out'.
Proof. intros H. unfold bind. now rewrite H. Qed.

Lemma bind_Raise {A B} (m : M A) (k : A -> M B) out out' e :
  m out = (out', Raise e) -> bind m k out = (out', Raise e).
Proof. intros H. unfold bind. now rewrite H. Qed.

Lemma bind_inv {A B} (m : M A) (k : A -> M B) out out2 b :
  bind m k out = (out2, Return b) ->
  exists a out1, m out = (out1, Return a) /\ k a out1 = (out2, Return b).
Proof.
  unfold bind. destruct (m out) as [out1 [a | e |]]; intros H; try discriminate.
  now exists a, out1.
Qed.

Lemma or_raise_inv {A} e (o : option A) out out' a :
  or_raise e o out = (out', Return a) -> o = Some a /\ out' = out.
Proof. destruct o; intros [= <- <-] || intros [=]; auto. Qed.

Lemma when_false (m : M unit) out : when false m out = (out, Return tt).
Proof. reflexivity. Qed.

(** ** Diagnostics *)

Lemma error_found_line {A} pos source_lines message line out :
  Py.index source_lines (line_number pos) = Some line ->
  @error A pos source_lines message out
  = (out ++ error_report pos line message, Raise SystemExit).
Proof.
  intros H. unfold error, bind, print, print_end_empty, raise, or_raise, ret.
  rewrite H. unfold error_report. now rewrite <- !app_assoc.
Qed.

Lemma warn_found_line pos source_lines message line out :
  Py.index source_lines (line_number pos) = Some line ->
  warn pos source_lines message out
  = (out ++ warn_report pos line message, Return tt).
Proof.
  intros H. unfold warn, bind, print, print_end_empty, raise, or_raise, ret.
  rewrite H. unfold warn_report. now rewrite <- !app_assoc.
Qed.

(** [error] never comes back to its caller. *)
Lemma error_no_return {A} pos source_lines message out :
  returns (@error A pos source_lines message out) = false.
Proof.
  unfold error, bind, print, print_end_empty, raise, or_raise.
  now destruct (Py.index source_lines (line_number pos)).
Qed.

Lemma error_inv {A} pos source_lines message out out' (a : A) :
  error pos source_lines message out = (out', Return a) -> False.
Proof.
  intros H. pose proof (error_no_return (A:=A) pos source_lines message out) as E.
  now rewrite H in E.
Qed.

Lemma when_error_inv c pos source_lines message out out' u :
  when c (error pos source_lines message) out = (out', Return u) ->
  c = false /\ out' = out.
Proof.
  destruct c; simpl.
  - intros H. now apply error_inv in H.
  - now intros [= <-].
Qed.

(** ** Computations that do not run out of fuel *)

Definition finishes {A} (r : list string * Result A) : Prop :=
  match r with
  | (_, OutOfFuel) => False
  | _ => True
  end.

Create HintDb finishes.

Lemma finishes_bind {A B} (m : M A) (k : A -> M B) out :
  finishes (m out) ->
  (forall a out1, m out = (out1, Return a) -> finishes (k a out1)) ->
  finishes (bind m k out).
Proof.
  unfold bind. destruct (m out) as [out1 [a | e |]]; simpl; intros Hm Hk;
    [now apply Hk | done | done].
Qed.

Lemma finishes_ret {A} (a : A) out : finishes (ret a out).
Proof. exact I. Qed.

Lemma finishes_raise {A} e out : finishes (@raise A e out).
Proof. exact I. Qed.

Lemma finishes_print s out : finishes (print s out).
Proof. exact I. Qed.

Lemma finishes_print_end_empty s out : finishes (print_end_empty s out).
Proof. exact I. Qed.

Lemma finishes_or_raise {A} e (o : option A) out : finishes (or_raise e o out).
Proof. now destruct o. Qed.

#[export] Hint Resolve finishes_ret finishes_raise finishes_print
  finishes_print_end_empty finishes_or_raise : finishes.

Ltac finishes :=
  repeat first
    [ apply finishes_bind; [| intros ? ? _]
    | progress auto with finishes
    | match goal with
      | |- finishes ((let (_, _) := ?p in _) _) => destruct p
      | |- finishes (match ?o with Some _ => _ | None => _ end _) => destruct o
      end ].

Lemma finishes_error {A} pos source_lines message out :
  finishes (@error A pos source_lines message out).
Proof. unfold error. finishes. Qed.

Lemma finishes_warn pos source_lines message out :
  finishes (warn pos source_lines message out).
Proof. unfold warn. finishes. Qed.

#[export] Hint Resolve finishes_error finishes_warn : finishes.

Lemma finishes_when c (m : M unit) out :
  finishes (m out) -> finishes (when c m out).
Proof. now destruct c. Qed.

Lemma finishes_tokens_next fin tokens out : finishes (tokens_next fin tokens out).
Proof. now destruct tokens. Qed.

Lemma finishes_get_until_newline_from fin tokens : forall acc out,
  finishes (get_until_newline_from fin tokens acc out).
Proof.
  induction tokens as [| t tokens IH]; intros acc out; simpl; [done |].
  destruct (name t); auto. exact I.
Qed.

#[export] Hint Resolve finishes_when finishes_tokens_next
  finishes_get_until_newline_from : finishes.

(** Taking a successful computation apart, bind by bind. *)
Ltac inv_run H :=
  lazymatch type of H with
  | bind (when _ (error _ _ _)) _ _ = (_, Return _) =>
      let u := fresh "u" in let o := fresh "out" in
      let H1 := fresh "Hc" in let H2 := fresh H in
      apply bind_inv in H as (u & o & H1 & H2);
      apply when_error_inv in H1 as [H1 ->];
      inv_run H2
  | bind (or_raise _ _) _ _ = (_, Return _) =>
      let a := fresh "a" in let o := fresh "out" in
      let H1 := fresh "Ho" in let H2 := fresh H in
      apply bind_inv in H as (a & o & H1 & H2);
      apply or_raise_inv in H1 as [H1 ->];
      inv_run H2
  | bind error _ _ = (_, Return _) =>
      let a := fresh "a" in let o := fresh "out" in
      let H1 := fresh "He" in let H2 := fresh H in
      apply bind_inv in H as (a & o & H1 & H2);
      now apply error_inv in H1
  | error _ _ _ _ = (_, Return _) => now apply error_inv in H
  | ret _ _ = (_, Return _) => unfold ret in H; injection H as H; subst
  | _ => idtac
  end.

(** ** The scan over the tokens *)

Section Scan.

Context (INSTRUCTIONS : gset string) (ARGUMENT_COUNT_LOOKUP : gmap string Z).
Context (fin : Exception) (source_lines : list string).

Abbreviation scan_token := (scan_token INSTRUCTIONS ARGUMENT_COUNT_LOOKUP fin source_lines).
Abbreviation scan := (scan INSTRUCTIONS ARGUMENT_COUNT_LOOKUP fin source_lines).

(** The arguments of a line: its tokens up to the first NEWLINE, without
    the comments. *)
Definition is_argument (t : Token) : Prop := name t <> COMMENT.

Global Instance is_argument_dec t : Decision (is_argument t).
Proof. unfold is_argument. apply _. Defined.

Lemma get_until_newline_from_line line nl rest acc out :
  Forall (fun t => name t <> NEWLINE) line ->
  name nl = NEWLINE ->
  get_until_newline_from fin (line ++ nl :: rest) acc out
  = (out, Return (acc ++ filter is_argument line, rest)).
Proof.
  intros Hline Hnl. revert acc.
  induction Hline as [| t line Ht _ IH]; intros acc; simpl.
  - rewrite Hnl. now rewrite app_nil_r.
  - destruct (name t) eqn:E; try contradiction; rewrite IH.
    all: try (rewrite filter_cons_True by (unfold is_argument; congruence);
              now rewrite <- app_assoc).
    rewrite filter_cons_False; [done |]. unfold is_argument. now rewrite E.
Qed.

Lemma get_until_newline_from_inv tokens acc out out' args rest :
  get_until_newline_from fin tokens acc out = (out', Return (args, rest)) ->
  out' = out /\ (length rest < length tokens)%nat.
Proof.
  revert acc. induction tokens as [| t tokens IH]; intros acc; simpl.
  - intros H. discriminate.
  - destruct (name t); try (intros H; apply IH in H as [-> ?]; split; [done | lia]).
    intros [= <- <- <-]. split; [done | lia].
Qed.

(** What one iteration does to the stream and to the local variables. *)
Lemma scan_token_inv token tokens st out out' tokens' st' :
  scan_token token tokens st out = (out', Return (tokens', st')) ->
  (length tokens' <= length tokens)%nat /\
  match name token with
  | LABEL_NAME =>
      raw_instructions st' = raw_instructions st /\
      instruction_index st' = instruction_index st /\
      labels st' =
        match labels st !! Py.init (value token) with
        | Some _ => labels st
        | None => <[Py.init (value token) := instruction_index st]> (labels st)
        end
  | NAME =>
      labels st' = labels st /\
      instruction_index st' = instruction_index st + 1 /\
      exists args, raw_instructions st' = raw_instructions st ++ [(token, args)]
  | _ =>
      labels st' = labels st /\
      raw_instructions st' = raw_instructions st /\
      instruction_index st' = instruction_index st
  end.
Proof.
  unfold scan_token. destruct (name token) eqn:E; intros H.
  - (* META_VARIABLE *)
    inv_run H. apply bind_inv in H1 as ([t ts] & o & Hn & H).
    destruct tokens as [| t0 tokens0]; [discriminate |].
    injection Hn as <- <- <-. inv_run H. simpl. split; [lia | done].
  - inv_run H.
  - inv_run H.
  - (* LABEL_NAME *)
    destruct (labels st !! Py.init (value token)) eqn:L.
    + apply bind_inv in H as (u & o & _ & H). inv_run H. simpl. split; [lia | done].
    + inv_run H. simpl. split; [lia | done].
  - (* NAME *)
    inv_run H. apply bind_inv in H1 as ([args ts] & o & Hg & H).
    apply get_until_newline_from_inv in Hg as [-> Hlen].
    inv_run H. simpl. split; [lia |]. repeat split. now exists args.
  - inv_run H. simpl. done.
  - inv_run H. simpl. done.
Qed.

(** The same for a successful iteration in full: the stream, the local
    variables and the output it leaves. *)
Lemma scan_token_exact token tokens st out out' tokens' st' :
  scan_token token tokens st out = (out', Return (tokens', st')) ->
  match name token with
  | META_VARIABLE =>
      exists value_token n,
        tokens = value_token :: tokens' /\
        Py.int (value value_token) = Some n /\
        out' = out /\
        st' = mkScan (<[Py.tail (value token) := n]> (json_meta st)) (labels st)
                (raw_instructions st) (instruction_index st) (compiler_state st)
  | LABEL_NAME =>
      tokens' = tokens /\
      match labels st !! Py.init (value token) with
      | Some _ =>
          st' = mkScan (json_meta st) (labels st) (raw_instructions st)
                  (instruction_index st) PROCEDURES
      | None =>
          out' = out /\
          st' = mkScan (json_meta st)
                  (<[Py.init (value token) := instruction_index st]> (labels st))
                  (raw_instructions st) (instruction_index st) PROCEDURES
      end
  | NAME =>
      exists args,
        get_until_newline_from fin tokens [] out = (out, Return (args, tokens')) /\
        value token ∈ INSTRUCTIONS /\
        ARGUMENT_COUNT_LOOKUP !! value token = Some (Z.of_nat (length args)) /\
        out' = out /\
        st' = mkScan (json_meta st) (labels st)
                (raw_instructions st ++ [(token, args)])
                (instruction_index st + 1) (compiler_state st)
  | NUMBER | ADDRESS => False
  | COMMENT | NEWLINE => tokens' = tokens /\ st' = st /\ out' = out
  end.
Proof.
  unfold scan_token. destruct (name token) eqn:E; intros H.
  - inv_run H. apply bind_inv in H1 as ([t ts] & o & Hn & H).
    destruct tokens as [| t0 tokens0]; [discriminate |].
    injection Hn as <- <- <-. inv_run H. now exists t0, a.
  - inv_run H.
  - inv_run H.
  - destruct (labels st !! Py.init (value token)) eqn:L.
    + apply bind_inv in H as (u & o & _ & H). now inv_run H.
    + now inv_run H.
  - inv_run H. apply bind_inv in H1 as ([args ts] & o & Hg & H).
    pose proof Hg as Hg'.
    apply get_until_newline_from_inv in Hg' as [-> _].
    inv_run H. exists args. split; [exact Hg |].
    apply bool_decide_eq_false in Hc. apply bool_decide_eq_false in Hc0.
    split; [now apply dec_stable |]. split; [| done].
    rewrite Ho. f_equal. symmetry. now apply dec_stable.
  - now inv_run H.
  - now inv_run H.
Qed.

(** An instruction line of the catalog with the right number of arguments
    is collected and counted. *)
Lemma scan_token_NAME token tokens st out args rest :
  name token = NAME ->
  value token ∈ INSTRUCTIONS ->
  ARGUMENT_COUNT_LOOKUP !! value token = Some (Z.of_nat (length args)) ->
  get_until_newline_from fin tokens [] out = (out, Return (args, rest)) ->
  scan_token token tokens st out
  = (out, Return (rest,
                  mkScan (json_meta st) (labels st)
                    (raw_instructions st ++ [(token, args)])
                    (instruction_index st + 1) (compiler_state st))).
Proof.
  intros Hname Hin Hcount Hargs. unfold scan_token. rewrite Hname.
  rewrite bool_decide_eq_false_2 by (intros H; now apply H).
  erewrite bind_Return by apply when_false.
  unfold bind at 1. rewrite Hcount. cbn [or_raise ret].
  unfold get_until_newline. erewrite bind_Return by exact Hargs.
  cbn beta iota. rewrite bool_decide_eq_false_2 by (intros H; now apply H).
  erewrite bind_Return by apply when_false. reflexivity.
Qed.

Lemma scan_token_shorter token tokens st out out' tokens' st' :
  scan_token token tokens st out = (out', Return (tokens', st')) ->
  (length tokens' <= length tokens)%nat.
Proof. intros H. now apply scan_token_inv in H. Qed.

(** *** Fuel *)

(** Any two bounds that cover the stream give the same run. *)
Lemma scan_fuel f1 : forall f2 tokens st out,
  (length tokens <= f1)%nat -> (length tokens <= f2)%nat ->
  scan f1 tokens st out = scan f2 tokens st out.
Proof.
  induction f1 as [| f1 IH]; intros [| f2] [| token tokens] st out H1 H2;
    simpl in *; try reflexivity; try lia.
  unfold bind.
    destruct (scan_token token tokens st out) as [out' [[tokens' st'] | e |]] eqn:E;
      try reflexivity.
    apply scan_token_shorter in E. apply IH; lia.
Qed.

Lemma finishes_scan_token token tokens st out :
  finishes (scan_token token tokens st out).
Proof.
  unfold scan_token, get_until_newline.
  destruct (name token); finishes.
Qed.

(** The bound that [assemble_tokens] gives the loop is never used up. *)
Lemma scan_fuel_enough fuel : forall tokens st out,
  (length tokens <= fuel)%nat -> finishes (scan fuel tokens st out).
Proof.
  induction fuel as [| fuel IH]; intros [| token tokens] st out Hlen;
    simpl in *; try lia.
  - now destruct fin.
  - now destruct fin.
  - apply finishes_bind; [apply finishes_scan_token |].
    intros [tokens' st'] out1 Hstep. apply IH.
    apply scan_token_shorter in Hstep. lia.
Qed.

(** *** Runs of the loop *)

(** [iterates tokens st out heads tokens1 st1 out1]: started on the stream
    [tokens] with the local variables [st] and the output [out], the loop
    binds its variable [token] to the tokens [heads], one iteration each,
    and then stands before the stream [tokens1] with [st1] and [out1]. *)
Inductive iterates :
  list Token -> ScanState -> list string -> list Token ->
  list Token -> ScanState -> list string -> Prop :=
| iterates_nil tokens st out :
    iterates tokens st out [] tokens st out
| iterates_cons token tokens st out tokens' st' out' heads tokens1 st1 out1 :
    scan_token token tokens st out = (out', Return (tokens', st')) ->
    iterates tokens' st' out' heads tokens1 st1 out1 ->
    iterates (token :: tokens) st out (token :: heads) tokens1 st1 out1.

(** The instruction-producing lines among the iterations: those whose
    token is a NAME. *)
Definition instruction_lines (heads : list Token) : nat :=
  length (filter (fun t => name t = NAME) heads).

(** The iterations that declare the label [l]. *)
Definition declares (l : string) (t : Token) : Prop :=
  name t = LABEL_NAME /\ Py.init (value t) = l.

Lemma iterates_shorter tokens st out heads tokens1 st1 out1 :
  iterates tokens st out heads tokens1 st1 out1 ->
  (length tokens1 <= length tokens)%nat.
Proof.
  induction 1 as [| ? ? ? ? ? ? ? ? ? ? ? Hstep _ IH]; [done |].
  apply scan_token_shorter in Hstep. simpl. lia.
Qed.

(** The loop goes on from where a run of iterations has brought it. *)
Lemma iterates_scan tokens st out heads tokens1 st1 out1 :
  iterates tokens st out heads tokens1 st1 out1 ->
  scan (length tokens) tokens st out = scan (length tokens1) tokens1 st1 out1.
Proof.
  induction 1 as [| token tokens st out tokens' st' out' ? ? ? ? Hstep _ IH];
    [done |].
  simpl. unfold bind. rewrite Hstep. rewrite <- IH.
  apply scan_token_shorter in Hstep. now apply scan_fuel.
Qed.

(** A loop that ends normally has run through some iterations to the end
    of the stream. *)
Lemma scan_Return_iterates fuel : forall tokens st out out' final,
  scan fuel tokens st out = (out', Return final) ->
  exists heads, iterates tokens st out heads [] final out' /\ fin = StopIteration.
Proof.
  induction fuel as [| fuel IH]; intros [| token tokens] st out out' final H;
    simpl in H; try discriminate.
  - destruct fin; try discriminate. injection H as <- <-.
    exists []. split; [constructor | done].
  - destruct fin; try discriminate. injection H as <- <-.
    exists []. split; [constructor | done].
  - apply bind_inv in H as ([tokens' st'] & out1 & Hstep & H).
    apply IH in H as (heads & Hrun & Hfin).
    exists (token :: heads). split; [| done]. econstructor; eassumption.
Qed.

(** *** Invariants of a run *)

(** The counter counts the instruction lines. *)
Lemma iterates_instruction_index tokens st out heads tokens1 st1 out1 :
  iterates tokens st out heads tokens1 st1 out1 ->
  instruction_index st1
  = instruction_index st + Z.of_nat (instruction_lines heads).
Proof.
  induction 1 as [| token tokens st out tokens' st' out' heads ? ? ? Hstep _ IH].
  - unfold instruction_lines. simpl. lia.
  - apply scan_token_inv in Hstep as [_ Hstep]. rewrite IH.
    unfold instruction_lines.
    destruct (name token) eqn:E;
      try (rewrite filter_cons_False by congruence;
           destruct Hstep as (_ & ? & ?) || destruct Hstep as (_ & _ & ?); lia).
    rewrite filter_cons_True by done. destruct Hstep as (_ & -> & _).
    simpl. lia.
Qed.

(** The counter is the number of raw instructions collected. *)
Lemma iterates_raw_instructions tokens st out heads tokens1 st1 out1 :
  iterates tokens st out heads tokens1 st1 out1 ->
  instruction_index st = Z.of_nat (length (raw_instructions st)) ->
  instruction_index st1 = Z.of_nat (length (raw_instructions st1)).
Proof.
  induction 1 as [| token tokens st out tokens' st' out' heads ? ? ? Hstep _ IH];
    [done |].
  intros Hst. apply IH. apply scan_token_inv in Hstep as [_ Hstep].
  destruct (name token);
    try (destruct Hstep as (_ & -> & ->); exact Hst);
    try (destruct Hstep as (-> & -> & _); exact Hst).
  destruct Hstep as (_ & -> & args & ->). rewrite length_app. simpl. lia.
Qed.

(** An entry of the label table is never changed. *)
Lemma iterates_labels_stable tokens st out heads tokens1 st1 out1 l v :
  iterates tokens st out heads tokens1 st1 out1 ->
  labels st !! l = Some v -> labels st1 !! l = Some v.
Proof.
  induction 1 as [| token tokens st out tokens' st' out' heads ? ? ? Hstep _ IH];
    [done |].
  intros Hl. apply IH. apply scan_token_inv in Hstep as [_ Hstep].
  destruct (name token);
    try (destruct Hstep as (-> & _); exact Hl).
  destruct Hstep as (_ & _ & ->).
  destruct (labels st !! Py.init (value token)) eqn:E; [done |].
  rewrite lookup_insert_ne; [done |]. intros <-. congruence.
Qed.

(** An entry of the label table was there from the start or comes from
    an iteration that declares its label. *)
Lemma iterates_labels_declared tokens st out heads tokens1 st1 out1 l v :
  iterates tokens st out heads tokens1 st1 out1 ->
  labels st1 !! l = Some v ->
  is_Some (labels st !! l) \/ Exists (declares l) heads.
Proof.
  induction 1 as [| token tokens st out tokens' st' out' heads ? ? ? Hstep _ IH];
    [by left |].
  intros Hl. apply IH in Hl as [Hl | Hl]; [| right; now apply Exists_cons_tl].
  apply scan_token_inv in Hstep as [_ Hstep].
  destruct (name token) eqn:E;
    try (destruct Hstep as (Heq & _); rewrite Heq in Hl; now left).
  destruct Hstep as (_ & _ & Heq). rewrite Heq in Hl.
  destruct (labels st !! Py.init (value token)) eqn:E'; [now left |].
  destruct (decide (Py.init (value token) = l)) as [<- | Hne].
  - right. apply Exists_cons_hd. split; done.
  - rewrite lookup_insert_ne in Hl; [now left | done].
Qed.

(** The entries of the label table lie between zero and the counter. *)
Lemma iterates_labels_bounded tokens st out heads tokens1 st1 out1 :
  iterates tokens st out heads tokens1 st1 out1 ->
  0 <= instruction_index st ->
  (forall l v, labels st !! l = Some v -> 0 <= v <= instruction_index st) ->
  0 <= instruction_index st1 /\
  forall l v, labels st1 !! l = Some v -> 0 <= v <= instruction_index st1.
Proof.
  induction 1 as [| token tokens st out tokens' st' out' heads ? ? ? Hstep _ IH];
    [done |].
  intros Hidx Hst. apply scan_token_inv in Hstep as [_ Hstep].
  assert (0 <= instruction_index st' /\
          forall l v, labels st' !! l = Some v -> 0 <= v <= instruction_index st')
    as [Hidx' Hst']; [| now apply IH].
  destruct (name token).
  1-3, 6-7: destruct Hstep as (Hl & _ & Hi); rewrite Hl, Hi; done.
  - destruct Hstep as (_ & Hi & Hl). rewrite Hi, Hl. split; [done |].
    intros l v.
    destruct (labels st !! Py.init (value token)) eqn:E; [apply Hst |].
    destruct (decide (Py.init (value token) = l)) as [<- | Hne].
    + rewrite lookup_insert_eq. intros [= <-]. lia.
    + rewrite lookup_insert_ne by done. apply Hst.
  - destruct Hstep as (Hl & Hi & _). rewrite Hl, Hi. split; [lia |].
    intros l v H. apply Hst in H. lia.
Qed.

End Scan.

(** ** Integers and their decimal text *)









Lemma out_of_range_false n :
  out_of_range n = false <-> - 2 ^ 31 <= n <= 2 ^ 31 - 1.
Proof.
  unfold out_of_range, INT_RANGE_LOWER, INT_RANGE_UPPER.
  rewrite orb_false_iff, Z.ltb_ge, Z.gtb_ltb, Z.ltb_ge. lia.
Qed.


(** ** The argument resolver *)

Section Resolver.

Context (source_lines : list string).

Abbreviation parse_argument_token := (parse_argument_token source_lines).

Lemma parse_NUMBER_in_range token labels out n :
  name token = NUMBER -> Py.int (value token) = Some n ->
  out_of_range n = false ->
  parse_argument_token token labels out = (out, Return (VInt n)).
Proof.
  intros Hn Hv Hr. unfold parse_argument_token. rewrite Hn.
  unfold bind. rewrite Hv. simpl. now rewrite Hr.
Qed.


Lemma parse_ADDRESS_in_range token labels out a :
  name token = ADDRESS -> Py.int (Py.tail (value token)) = Some a ->
  out_of_range a = false ->
  parse_argument_token token labels out = (out, Return (VStr (value token))).
Proof.
  intros Hn Hv Hr. unfold parse_argument_token. rewrite Hn.
  unfold bind. rewrite Hv. simpl. now rewrite Hr.
Qed.


(** A NAME argument that resolves is the [int] that the label table
    holds for its text. *)
Lemma parse_NAME_inv token labels out out' v :
  name token = NAME ->
  parse_argument_token token labels out = (out', Return v) ->
  exists index, labels !! value token = Some index /\ v = VInt index.
Proof.
  intros Hn. unfold parse_argument_token. rewrite Hn. intros H.
  inv_run H. now exists a.
Qed.

Lemma parse_NAME_defined token labels out index :
  name token = NAME -> labels !! value token = Some index ->
  parse_argument_token token labels out = (out, Return (VInt index)).
Proof.
  intros Hn Hl. unfold parse_argument_token. rewrite Hn.
  unfold bind. rewrite Hl. simpl. reflexivity.
Qed.


Lemma parse_ADDRESS_unread token labels out :
  name token = ADDRESS -> Py.int (Py.tail (value token)) = None ->
  parse_argument_token token labels out = (out, Raise ValueError).
Proof.
  intros Hn Hv. unfold parse_argument_token. rewrite Hn.
  unfold bind. now rewrite Hv.
Qed.


(** C6. For an ADDRESS argument whose digits are a value of the 32-bit
    signed range, the resolver returns the text of the token itself, the
    dollar sign included, as a [str]: not the parsed [int], and not an
    [int] at all. *)
Theorem address_keeps_token_text token labels out a :
  name token = ADDRESS -> Py.int (Py.tail (value token)) = Some a ->
  - 2 ^ 31 <= a <= 2 ^ 31 - 1 ->
  parse_argument_token token labels out = (out, Return (VStr (value token)))
  /\ VStr (value token) <> VInt a
  /\ is_int (VStr (value token)) = false.
Proof.
  intros Hn Hv Hr. split; [| split; [discriminate | reflexivity]].
  eapply parse_ADDRESS_in_range; eauto. now apply out_of_range_false.
Qed.

End Resolver.

(** ** Labels and arities in the scan *)

Section Labels.

Context (INSTRUCTIONS : gset string) (ARGUMENT_COUNT_LOOKUP : gmap string Z).
Context (fin : Exception) (source_lines : list string).

Abbreviation scan_token := (scan_token INSTRUCTIONS ARGUMENT_COUNT_LOOKUP fin source_lines).
Abbreviation scan := (scan INSTRUCTIONS ARGUMENT_COUNT_LOOKUP fin source_lines).
Abbreviation iterates := (iterates INSTRUCTIONS ARGUMENT_COUNT_LOOKUP fin source_lines).

Global Instance declares_dec l t : Decision (declares l t).
Proof. unfold declares. apply _. Defined.

Lemma iterates_app_inv h1 : forall h2 tokens st out tokens2 st2 out2,
  iterates tokens st out (h1 ++ h2) tokens2 st2 out2 ->
  exists tokens1 st1 out1,
    iterates tokens st out h1 tokens1 st1 out1 /\
    iterates tokens1 st1 out1 h2 tokens2 st2 out2.
Proof.
  induction h1 as [| t h1 IH]; intros h2 tokens st out tokens2 st2 out2 H.
  - exists tokens, st, out. split; [constructor | exact H].
  - simpl in H. inversion H as [| ? ? ? ? tokens' st' out' ? ? ? ? Hstep Hrest]; subst.
    apply IH in Hrest as (tokens1 & st1 & out1 & Ha & Hb).
    exists tokens1, st1, out1. split; [| exact Hb].
    econstructor; eassumption.
Qed.

Lemma iterates_app tokens st out h1 tokens1 st1 out1 h2 tokens2 st2 out2 :
  iterates tokens st out h1 tokens1 st1 out1 ->
  iterates tokens1 st1 out1 h2 tokens2 st2 out2 ->
  iterates tokens st out (h1 ++ h2) tokens2 st2 out2.
Proof.
  induction 1 as [| ? ? ? ? ? ? ? ? ? ? ? Hs _ IH]; intros H2; [exact H2 |].
  simpl. econstructor; [exact Hs |]. now apply IH.
Qed.

(** Among iterations of which one declares [l], there is a first. *)
Lemma first_declaration l heads :
  Exists (declares l) heads ->
  exists before first after,
    heads = before ++ first :: after /\
    declares l first /\ ~ Exists (declares l) before.
Proof.
  induction heads as [| t heads IH]; intros H; [now apply Exists_nil in H |].
  destruct (decide (declares l t)) as [Ht | Ht].
  - exists [], t, heads. split; [done |]. split; [done |].
    intros E. now apply Exists_nil in E.
  - apply Exists_cons in H as [H | H]; [done |].
    apply IH in H as (before & first & after & -> & Hf & Hb).
    exists (t :: before), first, after. split; [done |]. split; [done |].
    intros E. apply Exists_cons in E as [E | E]; done.
Qed.

(** The iteration that first declares a label enters the counter of that
    moment, and nothing changes the entry afterwards. *)
Lemma declaration_recorded tokens st out before first after tokens2 st2 out2 l :
  iterates tokens st out (before ++ first :: after) tokens2 st2 out2 ->
  labels st !! l = None ->
  declares l first -> ~ Exists (declares l) before ->
  labels st2 !! l
  = Some (instruction_index st + Z.of_nat (instruction_lines before)).
Proof.
  intros H Hnone [Hname Hl] Hbefore.
  apply iterates_app_inv in H as (tokens1 & st1 & out1 & Ha & Hb).
  inversion Hb as [| ? ? ? ? tokens' st' out' ? ? ? ? Hstep Hrest]; subst.
  eapply iterates_labels_stable; [exact Hrest |].
  apply scan_token_inv in Hstep as [_ Hstep]. rewrite Hname in Hstep.
  destruct Hstep as (_ & _ & ->).
  destruct (labels st1 !! Py.init (value first)) as [v |] eqn:E.
  - eapply iterates_labels_declared in E as [[v' E] | E]; [| | exact Ha];
      [congruence | done].
  - rewrite lookup_insert_eq. f_equal.
    eapply iterates_instruction_index. exact Ha.
Qed.

(** C2. When the loop meets a declaration of a label that an earlier
    iteration has declared, it prints the warning and goes on with the
    label table as it was: the label keeps the index of the first
    declaration (the number of instruction lines before it), which is
    also what any later use of the label resolves to when the scan
    ends. *)
Theorem redeclared_label_keeps_first_index
    tokens compiler_state out heads token rest st1 out1 line :
  iterates tokens (initial_scan compiler_state) out heads (token :: rest) st1 out1 ->
  name token = LABEL_NAME ->
  Exists (declares (Py.init (value token))) heads ->
  Py.index source_lines (line_number (source_pos token)) = Some line ->
  exists before first after,
    heads = before ++ first :: after /\
    declares (Py.init (value token)) first /\
    ~ Exists (declares (Py.init (value token))) before /\
    let index := Z.of_nat (instruction_lines before) in
    labels st1 !! Py.init (value token) = Some index /\
    scan_token token rest st1 out1
    = (out1 ++ warn_report (source_pos token) line
                 (duplicate_label_message (Py.init (value token))),
       Return (rest,
               mkScan (json_meta st1) (labels st1) (raw_instructions st1)
                 (instruction_index st1) PROCEDURES)) /\
    forall out' final use o,
      scan (length tokens) tokens (initial_scan compiler_state) out
      = (out', Return final) ->
      name use = NAME -> value use = Py.init (value token) ->
      labels final !! Py.init (value token) = Some index /\
      parse_argument_token source_lines use (labels final) o
      = (o, Return (VInt index)).
Proof.
  intros Hrun Hname Hdecl Hline.
  destruct (first_declaration _ _ Hdecl) as (before & first & after & -> & Hf & Hb).
  exists before, first, after. split; [done |]. split; [done |]. split; [done |].
  assert (labels st1 !! Py.init (value token)
          = Some (Z.of_nat (instruction_lines before))) as Hl.
  { erewrite declaration_recorded; [| exact Hrun | | exact Hf | exact Hb]; done. }
  simpl. split; [exact Hl |]. split.
  - unfold scan_token. rewrite Hname, Hl.
    erewrite bind_Return; [reflexivity |]. now apply warn_found_line.
  - intros out' final use o Hscan Huse Hvalue.
    assert (labels final !! Py.init (value token)
            = Some (Z.of_nat (instruction_lines before))) as Hfinal.
    { rewrite (iterates_scan _ _ _ _ _ _ _ _ _ _ _ Hrun) in Hscan.
      apply scan_Return_iterates in Hscan as (heads' & Hrest & _).
      eapply iterates_labels_stable; [exact Hrest | exact Hl]. }
    split; [exact Hfinal |].
    apply parse_NAME_defined; [done |]. now rewrite Hvalue.
Qed.

(** C3. When the scan ends normally, the label table holds for every
    label the number of instruction lines (iterations on a NAME token,
    not on a label) that the loop went through before the iteration that
    first declares the label. *)
Theorem label_index_counts_instruction_lines
    tokens compiler_state out heads token rest st1 out1 out' final :
  scan (length tokens) tokens (initial_scan compiler_state) out
  = (out', Return final) ->
  iterates tokens (initial_scan compiler_state) out heads (token :: rest) st1 out1 ->
  name token = LABEL_NAME ->
  ~ Exists (declares (Py.init (value token))) heads ->
  labels final !! Py.init (value token)
  = Some (Z.of_nat (instruction_lines heads)).
Proof.
  intros Hscan Hrun Hname Hfirst.
  rewrite (iterates_scan _ _ _ _ _ _ _ _ _ _ _ Hrun) in Hscan.
  apply scan_Return_iterates in Hscan as (heads' & Hrest & _).
  inversion Hrest as [| ? ? ? ? tokens' st' o' tail ? ? ? Hstep Htail]; subst.
  erewrite declaration_recorded with (st := initial_scan compiler_state)
    (before := heads) (first := token) (after := tail); [done | | done | done | done].
  eapply iterates_app; [exact Hrun |]. econstructor; eassumption.
Qed.

(** C7. On an instruction line whose mnemonic is in the catalog with the
    argument count [n] and whose tokens up to the NEWLINE, the comments
    left out, are not [n] in number, the iteration ends the run with the
    report of [error] whose message names [n] and the number found; so
    does the loop standing before that line. *)
Theorem wrong_argument_count_is_fatal
    token line newline rest st out n source_line fuel :
  name token = NAME ->
  value token ∈ INSTRUCTIONS ->
  ARGUMENT_COUNT_LOOKUP !! value token = Some n ->
  Forall (fun t => name t <> NEWLINE) line ->
  name newline = NEWLINE ->
  Z.of_nat (length (filter is_argument line)) <> n ->
  Py.index source_lines (line_number (source_pos token)) = Some source_line ->
  let report :=
    error_report (source_pos token) source_line
      ("Expected " +:+ Py.str n +:+ " argument(s) for instruction "
         +:+ quoted (value token) +:+ " but got "
         +:+ Py.str (Z.of_nat (length (filter is_argument line))) +:+ ".") in
  scan_token token (line ++ newline :: rest) st out
  = (out ++ report, Raise SystemExit)
  /\ scan (S fuel) (token :: line ++ newline :: rest) st out
     = (out ++ report, Raise SystemExit).
Proof.
  intros Hname Hin Hn Hline Hnl Hcount Hsrc report.
  assert (scan_token token (line ++ newline :: rest) st out
          = (out ++ report, Raise SystemExit)) as Hstep.
  { unfold scan_token. rewrite Hname.
    rewrite bool_decide_eq_false_2 by (intros H; now apply H).
    erewrite bind_Return by apply when_false.
    unfold bind at 1. rewrite Hn. simpl.
    unfold get_until_newline.
    erewrite bind_Return by (now apply get_until_newline_from_line).
    simpl. rewrite bool_decide_eq_true_2 by done. simpl.
    apply bind_Raise. now apply error_found_line. }
  split; [exact Hstep |].
  simpl. now apply bind_Raise.
Qed.

End Labels.

(** ** The assembled program *)

Lemma for_each_inv {A B} (f : A -> M B) l : forall out out' ys,
  for_each f l out = (out', Return ys) ->
  Forall2 (fun x y => exists o o', f x o = (o', Return y)) l ys.
Proof.
  induction l as [| x l IH]; intros out out' ys H; simpl in H.
  - inv_run H. constructor.
  - apply bind_inv in H as (y & o1 & Hx & H).
    apply bind_inv in H as (ys' & o2 & Hl & H). inv_run H.
    constructor; [now exists out, o1 | eapply IH; eassumption].
Qed.

Section Assembly.

Context (INSTRUCTIONS : gset string) (ARGUMENT_COUNT_LOOKUP : gmap string Z).
Context (ASSIGNMENT_INSTRUCTIONS : gset string).
Context (fin : Exception) (source_lines : list string).

Abbreviation scan := (scan INSTRUCTIONS ARGUMENT_COUNT_LOOKUP fin source_lines).
Abbreviation resolve_instruction :=
  (resolve_instruction ASSIGNMENT_INSTRUCTIONS source_lines).
Abbreviation assemble_tokens :=
  (assemble_tokens INSTRUCTIONS ARGUMENT_COUNT_LOOKUP ASSIGNMENT_INSTRUCTIONS
     fin source_lines).

(** A resolved instruction has the arguments of its raw instruction,
    each put through the resolver with the same label table. *)
Lemma resolve_instruction_inv include_source labels raw out out' instruction :
  resolve_instruction include_source labels raw out = (out', Return instruction) ->
  mnemonic instruction = value raw.1 /\
  Forall2
    (fun t v => exists o o',
       parse_argument_token source_lines t labels o = (o', Return v))
    raw.2 (arguments instruction).
Proof.
  destruct raw as [name_token args_tokens]. unfold resolve_instruction.
  intros H. apply bind_inv in H as (args & o1 & Hargs & H).
  apply bind_inv in H as (first & o2 & _ & H).
  apply bind_inv in H as (u & o3 & _ & H). inv_run H. simpl.
  split; [done |]. eapply for_each_inv. exact Hargs.
Qed.

(** The parts of a successful [assemble_tokens]: the scan, then the
    resolution of the raw instructions against the label table that the
    scan has left, then the entry points read from that table. *)
Lemma assemble_tokens_inv tokens compiler_state include_source out out' program :
  assemble_tokens tokens compiler_state include_source out = (out', Return program) ->
  exists st out1,
    scan (length tokens) tokens (initial_scan compiler_state) out
    = (out1, Return st) /\
    Forall2
      (fun raw instruction => exists o o',
         resolve_instruction include_source (labels st) raw o
         = (o', Return instruction))
      (raw_instructions st) (instructions program) /\
    meta program = json_meta st /\
    tick program = labels st !! "tick" /\
    start program = labels st !! "start".
Proof.
  unfold assemble_tokens. intros H.
  apply bind_inv in H as (st & out1 & Hscan & H).
  apply bind_inv in H as (instrs & out2 & Hres & H).
  apply bind_inv in H as (tk & out3 & Htick & H). inv_run H.
  exists st, out1. split; [exact Hscan |]. simpl.
  split; [eapply for_each_inv; exact Hres |]. split; [done |].
  split; [| done].
  destruct (labels st !! "tick") as [v |].
  - now inv_run Htick.
  - apply bind_inv in Htick as (u & o & _ & Htick). now inv_run Htick.
Qed.

(** C4. In a program that assembles, every argument that names a label
    resolves to the index that the label table holds for that name when
    the scan has ended, wherever the argument stands: two arguments with
    the same name, in any two instructions, resolve to the same index,
    whether the label is declared before or after either of them. *)
Theorem label_uses_resolve_alike
    tokens compiler_state include_source out out' program :
  assemble_tokens tokens compiler_state include_source out = (out', Return program) ->
  exists st out1,
    scan (length tokens) tokens (initial_scan compiler_state) out
    = (out1, Return st) /\
    length (instructions program) = length (raw_instructions st) /\
    forall i j raw instruction use,
      raw_instructions st !! i = Some raw ->
      instructions program !! i = Some instruction ->
      raw.2 !! j = Some use -> name use = NAME ->
      exists index,
        labels st !! value use = Some index /\
        arguments instruction !! j = Some (VInt index) /\
        forall i' j' raw' instruction' use',
          raw_instructions st !! i' = Some raw' ->
          instructions program !! i' = Some instruction' ->
          raw'.2 !! j' = Some use' -> name use' = NAME ->
          value use' = value use ->
          arguments instruction' !! j' = Some (VInt index).
Proof.
  intros H. apply assemble_tokens_inv in H as (st & out1 & Hscan & Hres & _).
  exists st, out1. split; [exact Hscan |].
  split; [symmetry; eapply Forall2_length; exact Hres |].
  assert (forall i j raw instruction use,
    raw_instructions st !! i = Some raw ->
    instructions program !! i = Some instruction ->
    raw.2 !! j = Some use -> name use = NAME ->
    exists index, labels st !! value use = Some index /\
                  arguments instruction !! j = Some (VInt index)) as Hone.
  { intros i j raw instruction use Hraw Hinstr Huse Hname.
    destruct (Forall2_lookup_lr _ _ _ _ _ _ Hres Hraw Hinstr) as (o & o' & Hr).
    apply resolve_instruction_inv in Hr as [_ Hargs].
    destruct (Forall2_lookup_l _ _ _ _ _ Hargs Huse) as (v & Hv & o1 & o2 & Hp).
    apply parse_NAME_inv in Hp as (index & Hl & ->); [| done].
    now exists index. }
  intros i j raw instruction use Hraw Hinstr Huse Hname.
  destruct (Hone _ _ _ _ _ Hraw Hinstr Huse Hname) as (index & Hl & Ha).
  exists index. split; [done |]. split; [done |].
  intros i' j' raw' instruction' use' Hraw' Hinstr' Huse' Hname' Hsame.
  destruct (Hone _ _ _ _ _ Hraw' Hinstr' Huse' Hname') as (index' & Hl' & Ha').
  rewrite Hsame in Hl'. congruence.
Qed.

(** The label table of a successful scan lies within the number of raw
    instructions. *)
Lemma scan_labels_bounded tokens compiler_state out out1 st :
  scan (length tokens) tokens (initial_scan compiler_state) out = (out1, Return st) ->
  forall l v, labels st !! l = Some v ->
    0 <= v <= Z.of_nat (length (raw_instructions st)).
Proof.
  intros Hscan. apply scan_Return_iterates in Hscan as (heads & Hrun & _).
  pose proof (iterates_raw_instructions _ _ _ _ _ _ _ _ _ _ _ Hrun eq_refl) as Hraw.
  apply iterates_labels_bounded in Hrun as [_ Hb]; simpl; [| lia | done].
  intros l v Hl. apply Hb in Hl. lia.
Qed.

End Assembly.

(** ** The range of the label table *)

Section Bounds.

Context (INSTRUCTIONS : gset string) (ARGUMENT_COUNT_LOOKUP : gmap string Z).
Context (ASSIGNMENT_INSTRUCTIONS : gset string).

(** A program of one instruction line, for the mnemonic [m] with
    [count] arguments, followed by the label line [tick:]. *)
Definition argument_12 : Token := mkToken NUMBER "12" (mkPos 0 1 1).
Definition newline_token : Token := mkToken NEWLINE (Py.chr Py.LF) (mkPos 0 1 1).
Definition tick_label : Token := mkToken LABEL_NAME "tick:" (mkPos 0 2 1).
Definition trailing_label_program (m : string) (count : nat) : list Token :=
  mkToken NAME m (mkPos 0 1 1)
    :: replicate count argument_12 ++ newline_token :: [tick_label; newline_token].

Lemma for_each_replicate_12 source_lines labels count out :
  for_each (fun t => parse_argument_token source_lines t labels)
    (replicate count argument_12) out
  = (out, Return (replicate count (VInt 12))).
Proof.
  revert out. induction count as [| count IH]; intros out; [done |].
  cbn [replicate for_each].
  erewrite bind_Return
    by (apply parse_NUMBER_in_range with (n := 12); reflexivity).
  erewrite bind_Return by apply IH. reflexivity.
Qed.

Lemma filter_replicate_12 count :
  filter is_argument (replicate count argument_12) = replicate count argument_12.
Proof.
  induction count as [| count IH]; [done |]. cbn [replicate].
  rewrite filter_cons_True by discriminate. now rewrite IH.
Qed.

Lemma trailing_label_scan m count :
  m ∈ INSTRUCTIONS ->
  ARGUMENT_COUNT_LOOKUP !! m = Some (Z.of_nat (S count)) ->
  scan INSTRUCTIONS ARGUMENT_COUNT_LOOKUP StopIteration []
    (length (trailing_label_program m (S count)))
    (trailing_label_program m (S count)) (initial_scan META) []
  = ([], Return
           (mkScan META_VARIABLES (<["tick" := 1]> ∅)
              [(mkToken NAME m (mkPos 0 1 1), replicate (S count) argument_12)]
              1 PROCEDURES)).
Proof.
  intros Hin Hcount. unfold trailing_label_program.
  erewrite iterates_scan; cycle 1.
  econstructor; [| econstructor; [| econstructor; [| constructor]]].
  - unfold scan_token. cbn [name value].
    rewrite bool_decide_eq_false_2 by (intros H; now apply H).
    erewrite bind_Return by apply when_false.
    unfold bind at 1. rewrite Hcount. cbn [or_raise ret].
    unfold get_until_newline.
    erewrite bind_Return.
    2: { apply get_until_newline_from_line; [| done].
         apply Forall_replicate. discriminate. }
    cbn [app]. rewrite filter_replicate_12, length_replicate.
    rewrite bool_decide_eq_false_2 by (intros H; now apply H).
    erewrite bind_Return by apply when_false.
    reflexivity.
  - unfold scan_token. cbn [name tick_label labels initial_scan].
    rewrite lookup_empty. reflexivity.
  - reflexivity.
  - reflexivity.
Qed.

Lemma trailing_label_assembles m count :
  m ∈ INSTRUCTIONS ->
  ARGUMENT_COUNT_LOOKUP !! m = Some (Z.of_nat (S count)) ->
  exists program,
    assemble_tokens INSTRUCTIONS ARGUMENT_COUNT_LOOKUP ASSIGNMENT_INSTRUCTIONS
      StopIteration [] (trailing_label_program m (S count)) META false []
    = ([], Return program)
    /\ length (instructions program) = 1%nat
    /\ tick program = Some 1.
Proof.
  intros Hin Hcount. eexists. unfold assemble_tokens.
  split; [| split].
  - erewrite bind_Return by (now apply trailing_label_scan).
    cbn [raw_instructions labels app for_each].
    erewrite bind_Return.
    2: { erewrite bind_Return.
         2: { unfold resolve_instruction. cbn [value].
              erewrite bind_Return by apply for_each_replicate_12.
              cbn [replicate]. unfold Py.index. cbn.
              erewrite bind_Return by reflexivity.
              cbn [is_int]. change (12 <=? 11) with false.
              rewrite !andb_false_r. reflexivity. }
         reflexivity. }
    reflexivity.
  - reflexivity.
  - reflexivity.
Qed.

(** C10. In a program that assembles, every entry of the label table
    lies between zero and the number of instructions of the program,
    both included, and so do the entry points [tick] and [start], which
    are entries of that table. The upper end is reached: with any
    mnemonic of the catalog that takes at least one argument, one
    instruction line followed by the label line [tick:] assembles to a
    program of one instruction whose [tick] is 1. *)
Theorem label_indices_within_instruction_count
    fin source_lines tokens compiler_state include_source out out' program :
  assemble_tokens INSTRUCTIONS ARGUMENT_COUNT_LOOKUP ASSIGNMENT_INSTRUCTIONS
    fin source_lines tokens compiler_state include_source out
  = (out', Return program) ->
  (exists st out1,
     scan INSTRUCTIONS ARGUMENT_COUNT_LOOKUP fin source_lines
       (length tokens) tokens (initial_scan compiler_state) out
     = (out1, Return st) /\
     tick program = labels st !! "tick" /\
     start program = labels st !! "start" /\
     forall l v, labels st !! l = Some v ->
       0 <= v <= Z.of_nat (length (instructions program)))
  /\ (forall v, tick program = Some v ->
        0 <= v <= Z.of_nat (length (instructions program)))
  /\ (forall v, start program = Some v ->
        0 <= v <= Z.of_nat (length (instructions program)))
  /\ (forall m count,
        m ∈ INSTRUCTIONS ->
        ARGUMENT_COUNT_LOOKUP !! m = Some (Z.of_nat (S count)) ->
        exists program',
          assemble_tokens INSTRUCTIONS ARGUMENT_COUNT_LOOKUP ASSIGNMENT_INSTRUCTIONS
            StopIteration [] (trailing_label_program m (S count)) META false []
          = ([], Return program')
          /\ length (instructions program') = 1%nat
          /\ tick program' = Some 1).
Proof.
  intros H.
  apply assemble_tokens_inv in H as (st & out1 & Hscan & Hres & _ & Htick & Hstart).
  assert (forall l v, labels st !! l = Some v ->
            0 <= v <= Z.of_nat (length (instructions program))) as Hb.
  { rewrite <- (Forall2_length _ _ _ Hres).
    eapply scan_labels_bounded. exact Hscan. }
  split; [| split; [| split]].
  - exists st, out1. done.
  - intros v Hv. rewrite Htick in Hv. now apply Hb in Hv.
  - intros v Hv. rewrite Hstart in Hv. now apply Hb in Hv.
  - apply trailing_label_assembles.
Qed.

End Bounds.

(** ** The lexer: lexemes, fuel and lines *)

Fixpoint all_chars (p : ascii -> bool) (s : string) : bool :=
  match s with
  | EmptyString => true
  | String c s' => p c && all_chars p s'
  end.

(** The number of line feeds of a text. *)
Fixpoint count_LF (s : string) : nat :=
  match s with
  | EmptyString => 0
  | String c s' => (if Ascii.eqb c Py.LF then 1 else 0) + count_LF s'
  end.

(** A text that is empty or ends in a line feed. *)
Fixpoint ends_in_LF (s : string) : bool :=
  match s with
  | EmptyString => true
  | String c EmptyString => Ascii.eqb c Py.LF
  | String _ s' => ends_in_LF s'
  end.

Lemma count_LF_app s1 s2 : count_LF (s1 +:+ s2) = (count_LF s1 + count_LF s2)%nat.
Proof. induction s1 as [| c s1 IH]; simpl; [done |]. rewrite IH. lia. Qed.

Lemma string_length_app s1 s2 :
  String.length (s1 +:+ s2) = (String.length s1 + String.length s2)%nat.
Proof. induction s1 as [| c s1 IH]; simpl; [done |]. now rewrite IH. Qed.

Lemma string_app_chr s1 c s2 :
  (s1 +:+ Py.chr c) +:+ s2 = s1 +:+ String c s2.
Proof.
  induction s1 as [| c1 s1 IH]; [done |].
  change (String c1 ((s1 +:+ Py.chr c) +:+ s2) = String c1 (s1 +:+ String c s2)).
  now rewrite IH.
Qed.

Lemma ends_in_LF_app s1 s2 : ends_in_LF (s1 +:+ s2) = true -> ends_in_LF s2 = true.
Proof.
  induction s1 as [| c s1 IH]; simpl; [done |].
  destruct (s1 +:+ s2) eqn:E; [| exact IH].
  destruct s1; [| discriminate]. intros _. now apply IH.
Qed.

Lemma ends_in_LF_count s :
  ends_in_LF s = true -> s <> EmptyString -> (1 <= count_LF s)%nat.
Proof.
  induction s as [| c s IH]; [done |]. intros H _. simpl in *.
  destruct s; [rewrite H; simpl; lia |].
  assert (1 <= count_LF (String a s))%nat by (now apply IH). lia.
Qed.

Lemma split_lines_aux_length s : forall cur,
  length (Py.split_lines_aux cur s) = S (count_LF s).
Proof.
  induction s as [| c s IH]; intros cur; simpl; [done |].
  destruct (Ascii.eqb c Py.LF); simpl; now rewrite IH.
Qed.

Lemma span_spec p s run rest :
  Lexer.span p s = (run, rest) -> s = run +:+ rest /\ all_chars p run = true.
Proof.
  revert run rest. induction s as [| c s IH]; intros run rest; simpl.
  - now intros [= <- <-].
  - destruct (p c) eqn:E; [| now intros [= <- <-]].
    destruct (Lexer.span p s) as [run' rest'].
    intros [= <- <-]. destruct (IH _ _ eq_refl) as [-> Hall].
    simpl. now rewrite E.
Qed.

Lemma plus_spec p s run rest :
  Lexer.plus p s = Some (run, rest) ->
  s = run +:+ rest /\ all_chars p run = true /\ run <> EmptyString.
Proof.
  unfold Lexer.plus. destruct (Lexer.span p s) as [run' rest'] eqn:E.
  destruct run'; [discriminate |]. intros [= <- <-].
  apply span_spec in E as [-> Hall]. done.
Qed.

Lemma all_chars_count_LF p run :
  (forall c, p c = true -> Ascii.eqb c Py.LF = false) ->
  all_chars p run = true -> count_LF run = 0%nat.
Proof.
  intros Hp. induction run as [| c run IH]; simpl; [done |].
  intros [Hc Hall]%andb_prop. rewrite (Hp _ Hc). now rewrite IH.
Qed.

Lemma is_digit_not_LF c : Lexer.is_digit c = true -> Ascii.eqb c Py.LF = false.
Proof. destruct (Ascii.eqb_spec c Py.LF) as [-> |]; [discriminate | done]. Qed.

Lemma is_A_z_not_LF c : Lexer.is_A_z c = true -> Ascii.eqb c Py.LF = false.
Proof. destruct (Ascii.eqb_spec c Py.LF) as [-> |]; [discriminate | done]. Qed.

Lemma is_label_char_not_LF c :
  Lexer.is_label_char c = true -> Ascii.eqb c Py.LF = false.
Proof. destruct (Ascii.eqb_spec c Py.LF) as [-> |]; [discriminate | done]. Qed.

Lemma is_not_newline_not_LF c :
  Lexer.is_not_newline c = true -> Ascii.eqb c Py.LF = false.
Proof. unfold Lexer.is_not_newline. now destruct (Ascii.eqb c Py.LF). Qed.

(** What a rule that matches takes off the text: a lexeme that is not
    empty and that holds a line feed only when it is the NEWLINE. *)
Definition takes (n : TokenName) (s lexeme rest : string) : Prop :=
  s = lexeme +:+ rest /\ lexeme <> EmptyString /\
  count_LF lexeme = if decide (n = NEWLINE) then 1%nat else 0%nat.

Lemma prefixed_plus_spec p c0 c s lexeme rest :
  (forall c, p c = true -> Ascii.eqb c Py.LF = false) ->
  Ascii.eqb c0 Py.LF = false ->
  Ascii.eqb c c0 = true ->
  Lexer.prefixed c (Lexer.plus p s) = Some (lexeme, rest) ->
  String c s = lexeme +:+ rest /\ lexeme <> EmptyString /\ count_LF lexeme = 0%nat.
Proof.
  intros Hp Hc0 Hc. apply Ascii.eqb_eq in Hc as ->.
  unfold Lexer.prefixed. destruct (Lexer.plus p s) as [[run rest'] |] eqn:E;
    [| discriminate].
  simpl. intros [= <- <-]. apply plus_spec in E as (-> & Hall & _).
  split; [done |]. split; [done |]. simpl. rewrite Hc0.
  now rewrite (all_chars_count_LF _ _ Hp Hall).
Qed.

Lemma first_match_spec s n lexeme rest :
  Lexer.first_match Lexer.rules s = Some (n, lexeme, rest) ->
  takes n s lexeme rest.
Proof.
  unfold Lexer.rules, takes. cbn [Lexer.first_match].
  destruct (Lexer.match_META_VARIABLE s) as [[lx rs] |] eqn:E1.
  { intros [= <- <- <-]. unfold Lexer.match_META_VARIABLE in E1.
    destruct s as [| c s]; [discriminate |].
    destruct (Ascii.eqb c "#") eqn:Ec; [| discriminate].
    now apply (prefixed_plus_spec _ "#" c s lx rs is_A_z_not_LF eq_refl Ec) in E1. }
  destruct (Lexer.match_NUMBER s) as [[lx rs] |] eqn:E2.
  { intros [= <- <- <-]. unfold Lexer.match_NUMBER in E2.
    destruct s as [| c s]; [discriminate |].
    destruct (Ascii.eqb c "-") eqn:Ec.
    - now apply (prefixed_plus_spec _ "-" c s lx rs is_digit_not_LF eq_refl Ec) in E2.
    - apply plus_spec in E2 as (-> & Hall & Hne).
      split; [done |]. split; [done |].
      now rewrite (all_chars_count_LF _ _ is_digit_not_LF Hall). }
  destruct (Lexer.match_ADDRESS s) as [[lx rs] |] eqn:E3.
  { intros [= <- <- <-]. unfold Lexer.match_ADDRESS in E3.
    destruct s as [| c s]; [discriminate |].
    destruct (Ascii.eqb c "$") eqn:Ec; [| discriminate].
    now apply (prefixed_plus_spec _ "$" c s lx rs is_digit_not_LF eq_refl Ec) in E3. }
  destruct (Lexer.match_LABEL_NAME s) as [[lx rs] |] eqn:E4.
  { intros [= <- <- <-]. unfold Lexer.match_LABEL_NAME in E4.
    destruct (Lexer.plus Lexer.is_label_char s) as [[run [| c rest']] |] eqn:E;
      try discriminate.
    destruct (Ascii.eqb c ":") eqn:Ec; [| discriminate].
    injection E4 as <- <-. apply plus_spec in E as (Hs & Hall & Hne).
    apply Ascii.eqb_eq in Ec. subst c s.
    split; [| split].
    - symmetry. apply string_app_chr.
    - destruct run; [done | discriminate].
    - rewrite count_LF_app. simpl.
      now rewrite (all_chars_count_LF _ _ is_label_char_not_LF Hall). }
  destruct (Lexer.match_NAME s) as [[lx rs] |] eqn:E5.
  { intros [= <- <- <-]. unfold Lexer.match_NAME in E5.
    destruct s as [| c s]; [discriminate |].
    destruct (Lexer.is_name_start c) eqn:Ec; [| discriminate].
    destruct (Lexer.span Lexer.is_label_char s) as [run rest'] eqn:E.
    injection E5 as <- <-. apply span_spec in E as [-> Hall].
    split; [done |]. split; [done |]. simpl.
    rewrite (all_chars_count_LF _ _ is_label_char_not_LF Hall).
    destruct (Ascii.eqb_spec c Py.LF) as [-> |]; [discriminate | done]. }
  destruct (Lexer.match_COMMENT s) as [[lx rs] |] eqn:E6.
  { intros [= <- <- <-]. unfold Lexer.match_COMMENT in E6.
    destruct s as [| c s]; [discriminate |].
    destruct (Ascii.eqb c ";") eqn:Ec; [| discriminate].
    destruct (Lexer.span Lexer.is_not_newline s) as [run rest'] eqn:E.
    injection E6 as <- <-. apply span_spec in E as [-> Hall].
    apply Ascii.eqb_eq in Ec as ->.
    split; [done |]. split; [done |]. simpl.
    now rewrite (all_chars_count_LF _ _ is_not_newline_not_LF Hall). }
  destruct (Lexer.match_NEWLINE s) as [[lx rs] |] eqn:E7; [| discriminate].
  intros [= <- <- <-]. unfold Lexer.match_NEWLINE in E7.
  destruct s as [| c s]; [discriminate |].
  destruct (Ascii.eqb c Py.LF) eqn:Ec; [| discriminate].
  injection E7 as <- <-. split; [done |]. split; [done |]. simpl. now rewrite Ec.
Qed.

Lemma skip_ignored_spec s : forall i s' i',
  Lexer.skip_ignored s i = (s', i') ->
  count_LF s' = count_LF s /\
  (String.length s' <= String.length s)%nat /\
  (ends_in_LF s = true -> ends_in_LF s' = true).
Proof.
  induction s as [| c s IH]; intros i s' i'; simpl.
  - now intros [= <- <-].
  - destruct (Ascii.eqb c " ") eqn:Ec; [| now intros [= <- <-]].
    intros H. apply IH in H as (-> & Hlen & Hend).
    apply Ascii.eqb_eq in Ec as ->. simpl.
    split; [done |]. split; [lia |]. intros H. apply Hend. now destruct s.
Qed.

(** The stream holds the invariant [on_line total] when its line number
    and the line feeds still in its text add up to [total] + 1 and the
    text, unless it is exhausted, ends in a line feed. *)
Definition on_line (total : nat) (st : Lexer.Stream) : Prop :=
  (Lexer.at_lineno st + count_LF (Lexer.text st) = S total)%nat /\
  ends_in_LF (Lexer.text st) = true.

Lemma next_Yield total st t st' :
  on_line total st -> Lexer.next st = Lexer.Yield t st' ->
  on_line total st' /\
  (lineno (source_pos t) <= total)%nat /\
  lineno (source_pos t) = Lexer.at_lineno st /\
  (String.length (Lexer.text st') < String.length (Lexer.text st))%nat.
Proof.
  intros [Hline Hend]. unfold Lexer.next.
  destruct (Lexer.skip_ignored (Lexer.text st) (Lexer.at_idx st)) as [s i] eqn:Es.
  apply skip_ignored_spec in Es as (Hc & Hlen & He). specialize (He Hend).
  destruct s as [| c s]; [discriminate |].
  destruct (Lexer.first_match Lexer.rules (String c s)) as [[[n lexeme] rest] |] eqn:E;
    [| discriminate].
  apply first_match_spec in E as (Hs & Hne & Hlf).
  assert (1 <= count_LF (String c s))%nat as Hone
    by (now apply ends_in_LF_count).
  assert (count_LF (String c s) = count_LF lexeme + count_LF rest)%nat as Hsum
    by (now rewrite Hs, count_LF_app).
  assert (String.length (String c s)
          = String.length lexeme + String.length rest)%nat as Hslen
    by (now rewrite Hs, string_length_app).
  assert (ends_in_LF rest = true) as Hrest
    by (rewrite Hs in He; now apply ends_in_LF_app in He).
  assert (1 <= String.length lexeme)%nat as Hpos
    by (destruct lexeme; [done | simpl; lia]).
  intros [= <- <-].
  destruct (decide (n = NEWLINE)) as [-> | Hn].
  - simpl. unfold on_line. simpl. repeat split; try done; lia.
  - assert (Lexer.text
              match n with
              | NEWLINE =>
                  Lexer.mkStream rest (i + String.length lexeme)
                    (S (Lexer.at_lineno st)) (i + String.length lexeme)
                    (i - Lexer.line_start st + 1)
              | _ =>
                  Lexer.mkStream rest (i + String.length lexeme)
                    (Lexer.at_lineno st) (Lexer.line_start st)
                    (i - Lexer.line_start st + 1)
              end = rest) as Ht by (now destruct n).
    assert (Lexer.at_lineno
              match n with
              | NEWLINE =>
                  Lexer.mkStream rest (i + String.length lexeme)
                    (S (Lexer.at_lineno st)) (i + String.length lexeme)
                    (i - Lexer.line_start st + 1)
              | _ =>
                  Lexer.mkStream rest (i + String.length lexeme)
                    (Lexer.at_lineno st) (Lexer.line_start st)
                    (i - Lexer.line_start st + 1)
              end = Lexer.at_lineno st) as Hl by (now destruct n).
    unfold on_line. rewrite Ht, Hl. simpl. repeat split; try done; lia.
Qed.

(** Enough fuel: any two bounds above the length of the text give the
    same tokens. *)
Lemma run_fuel f1 : forall f2 st,
  (String.length (Lexer.text st) < f1)%nat ->
  (String.length (Lexer.text st) < f2)%nat ->
  Lexer.run f1 st = Lexer.run f2 st.
Proof.
  induction f1 as [| f1 IH]; intros [| f2] st H1 H2; try lia.
  simpl. destruct (Lexer.next st) as [t st' | |] eqn:E; try reflexivity.
  assert (String.length (Lexer.text st') < String.length (Lexer.text st))%nat
    as Hlt.
  { unfold Lexer.next in E.
    destruct (Lexer.skip_ignored (Lexer.text st) (Lexer.at_idx st)) as [s i] eqn:Es.
    apply skip_ignored_spec in Es as (_ & Hlen & _).
    destruct s as [| c s]; [discriminate |].
    destruct (Lexer.first_match Lexer.rules (String c s))
      as [[[n lexeme] rest] |] eqn:Em; [| discriminate].
    apply first_match_spec in Em as (Hs & Hne & _).
    assert (String.length (String c s)
            = String.length lexeme + String.length rest)%nat as Hslen
      by (now rewrite Hs, string_length_app).
    assert (1 <= String.length lexeme)%nat
      by (destruct lexeme; [done | simpl; lia]).
    injection E as <- <-. destruct n; simpl; lia. }
  rewrite (IH f2 st') by lia. reflexivity.
Qed.

Lemma run_lines total fuel : forall st tokens failure,
  on_line total st -> (1 <= Lexer.at_lineno st)%nat ->
  Lexer.run fuel st = (tokens, failure) ->
  Forall (fun t => (1 <= lineno (source_pos t) <= total)%nat) tokens /\
  forall pos, failure = Some pos -> (1 <= lineno pos <= total)%nat.
Proof.
  induction fuel as [| fuel IH]; intros st tokens failure Hinv Hpos; simpl.
  - intros [= <- <-]. split; [constructor | discriminate].
  - destruct (Lexer.next st) as [t st' | | pos] eqn:E.
    + destruct (Lexer.run fuel st') as [ts e] eqn:Er. intros [= <- <-].
      destruct (next_Yield _ _ _ _ Hinv E) as (Hinv' & Hle & Heq & _).
      assert (1 <= Lexer.at_lineno st')%nat as Hpos'.
      { unfold Lexer.next in E.
        destruct (Lexer.skip_ignored (Lexer.text st) (Lexer.at_idx st)) as [s i].
        destruct s as [| c s]; [discriminate |].
        destruct (Lexer.first_match Lexer.rules (String c s))
          as [[[n lexeme] rest] |]; [| discriminate].
        injection E as <- <-. destruct n; simpl; lia. }
      destruct (IH _ _ _ Hinv' Hpos' Er) as [Hts He].
      split; [constructor; [lia | exact Hts] | exact He].
    + intros [= <- <-]. split; [constructor | discriminate].
    + intros [= <- <-]. split; [constructor |]. intros pos' [= <-].
      unfold Lexer.next in E.
      destruct (Lexer.skip_ignored (Lexer.text st) (Lexer.at_idx st)) as [s i] eqn:Es.
      apply skip_ignored_spec in Es as (Hc & _ & He).
      destruct Hinv as [Hline Hend]. specialize (He Hend).
      destruct s as [| c s]; [discriminate |].
      destruct (Lexer.first_match Lexer.rules (String c s))
        as [[[n lexeme] rest] |]; [discriminate |].
      assert (1 <= count_LF (String c s))%nat by (now apply ends_in_LF_count).
      injection E as <-. simpl. lia.
Qed.

Lemma ends_in_LF_snoc s : ends_in_LF (s +:+ Py.chr Py.LF) = true.
Proof.
  induction s as [| c s IH]; [done |]. simpl.
  destruct (s +:+ Py.chr Py.LF) eqn:E; [now destruct s | exact IH].
Qed.

(** Every token that [assemble] gets from the lexer, and the position of
    a lexing failure, lies on a line of [source_lines]: [error] and [warn]
    find the line they show. *)
Lemma lexed_lines_available source tokens failure :
  Lexer.lex (source +:+ Py.chr Py.LF) = (tokens, failure) ->
  Forall
    (fun t => is_Some (Py.index (Py.split_lines source)
                         (line_number (source_pos t))))
    tokens /\
  forall pos, failure = Some pos ->
    is_Some (Py.index (Py.split_lines source) (line_number pos)).
Proof.
  intros H. unfold Lexer.lex in H.
  apply (run_lines (S (count_LF source))) in H as [Hts Hf].
  - assert (forall pos, (1 <= lineno pos <= S (count_LF source))%nat ->
              is_Some (Py.index (Py.split_lines source) (line_number pos))) as Hline.
    { intros pos Hpos. unfold Py.index, line_number.
      rewrite (proj2 (Z.leb_le _ _)) by lia.
      apply lookup_lt_is_Some. unfold Py.split_lines.
      rewrite split_lines_aux_length. lia. }
    split; [| intros pos Hpos; apply Hline, Hf, Hpos].
    eapply Forall_impl; [exact Hts |]. intros t Ht. now apply Hline.
  - unfold on_line, Lexer.start. simpl. rewrite count_LF_app. simpl.
    split; [lia | apply ends_in_LF_snoc].
  - simpl. lia.
Qed.

(** * Worked programs *)

Definition NL : string := Py.chr Py.LF.

(** Modelled from the spec: [g1asm/instructions.py] is not among the
    sources. The end-to-end example of the spec has the mnemonic [add]
    with three arguments and the mnemonic [halt] with none, and [add]
    writes to its first argument. *)
Definition sample_INSTRUCTIONS : gset string := {[ "add"; "halt" ]}.
Definition sample_ARGUMENT_COUNT_LOOKUP : gmap string Z :=
  <["add" := 3]> (<["halt" := 0]> ∅).
Definition sample_ASSIGNMENT_INSTRUCTIONS : gset string := {[ "add" ]}.

Abbreviation sample_scan_token :=
  (scan_token sample_INSTRUCTIONS sample_ARGUMENT_COUNT_LOOKUP).
Abbreviation sample_scan :=
  (scan sample_INSTRUCTIONS sample_ARGUMENT_COUNT_LOOKUP).
Abbreviation sample_iterates :=
  (iterates sample_INSTRUCTIONS sample_ARGUMENT_COUNT_LOOKUP).
Abbreviation sample_assemble_tokens :=
  (assemble_tokens sample_INSTRUCTIONS sample_ARGUMENT_COUNT_LOOKUP
     sample_ASSIGNMENT_INSTRUCTIONS).
Abbreviation sample_assemble :=
  (assemble sample_INSTRUCTIONS sample_ARGUMENT_COUNT_LOOKUP
     sample_ASSIGNMENT_INSTRUCTIONS).

(** The end-to-end example of the spec. *)
Definition spec_example : string :=
  "#memory 256" +:+ NL +:+ "start:" +:+ NL +:+ " add $1 2 3" +:+ NL
    +:+ "tick:" +:+ NL +:+ " halt" +:+ NL.

(** The same with an instruction that has arguments in the place of
    [halt]. *)
Definition spec_example_with_add : string :=
  "#memory 256" +:+ NL +:+ "start:" +:+ NL +:+ " add $1 2 3" +:+ NL
    +:+ "tick:" +:+ NL +:+ " add $1 2 3" +:+ NL.

(** A program that uses [tick] before its declaration and after it,
    declares [start] twice and ends on a label line. *)
Definition two_uses_source : string :=
  "start:" +:+ NL +:+ " add $1 tick 3 ; jump ahead" +:+ NL +:+ "start:" +:+ NL
    +:+ "tick:" +:+ NL +:+ " add $2 tick start" +:+ NL +:+ "end:".

Definition two_uses_lines : list string :=
  Eval vm_compute in Py.split_lines two_uses_source.

Definition two_uses_tokens : list Token :=
  Eval vm_compute in (Lexer.lex (two_uses_source +:+ NL)).1.

(** The second declaration of [start], on line 3, and the declaration of
    [tick], on line 4. *)
Definition second_start : Token := mkToken LABEL_NAME "start:" (mkPos 35 3 1).
Definition first_tick : Token := mkToken LABEL_NAME "tick:" (mkPos 42 4 1).

(** The local variables and the output when the loop stands before the
    second declaration of [start]. *)
Definition before_second_start : list string * Result ScanState :=
  Eval vm_compute in
    sample_scan StopIteration two_uses_lines 8 (take 8 two_uses_tokens)
      (initial_scan META) [].

Definition state_before_second_start : ScanState :=
  Eval vm_compute in
    match before_second_start with
    | (_, Return st) => st
    | _ => initial_scan META
    end.

(** The scan of the whole program and the program assembled from it. *)
Definition two_uses_scan : list string * Result ScanState :=
  Eval vm_compute in
    sample_scan StopIteration two_uses_lines (length two_uses_tokens)
      two_uses_tokens (initial_scan META) [].

Definition two_uses_final : ScanState :=
  Eval vm_compute in
    match two_uses_scan with
    | (_, Return st) => st
    | _ => initial_scan META
    end.

Definition two_uses_assembled : list string * Result Program :=
  Eval vm_compute in
    sample_assemble_tokens StopIteration two_uses_lines two_uses_tokens META
      false [].

Definition two_uses_program : Program :=
  Eval vm_compute in
    match two_uses_assembled with
    | (_, Return program) => program
    | _ => mkProgram ∅ [] None None None
    end.

(** The identifiers of the spec: letters, digits and underscores, the
    first character not a digit. *)
Definition is_letter (c : ascii) : bool :=
  let n := nat_of_ascii c in
  ((65 <=? n) && (n <=? 90) || (97 <=? n) && (n <=? 122))%nat.

Definition is_identifier_char (c : ascii) : bool :=
  is_letter c || Lexer.is_digit c || Ascii.eqb c "_".

Definition is_identifier (s : string) : bool :=
  match s with
  | EmptyString => false
  | String c _ => negb (Lexer.is_digit c) && all_chars is_identifier_char s
  end.

(** A source of ten lines with a label on the last. *)
Definition ten_lines : list string := replicate 9 EmptyString ++ ["foo:"].



(** ** The example of the spec *)

Lemma scan_cons I A fin sl fuel token tokens st :
  scan I A fin sl (S fuel) (token :: tokens) st
  = bind (scan_token I A fin sl token tokens st)
      (fun x => let '(tokens', st') := x in scan I A fin sl fuel tokens' st').
Proof. reflexivity. Qed.

(** A raw instruction without arguments does not resolve: reading the
    first of its resolved arguments raises [IndexError]. *)
Lemma resolve_instruction_no_arguments AS sl include_source labels token out :
  resolve_instruction AS sl include_source labels (token, []) out
  = (out, Raise IndexError).
Proof. reflexivity. Qed.

Lemma except_LexingError_inv {A} (m : M A) handler out out' a :
  except_LexingError m handler out = (out', Return a) ->
  m out = (out', Return a) \/
  exists pos out1, handler pos out1 = (out', Return a).
Proof.
  unfold except_LexingError.
  destruct (m out) as [out1 [a1 | [] |]]; intros H; try discriminate; auto.
  right. eauto.
Qed.

(** One iteration of a scan that is known to end normally. *)
Ltac scan_step H :=
  rewrite scan_cons in H;
  let ts := fresh "ts" in let st := fresh "st" in let o := fresh "o" in
  let Hs := fresh "Hs" in
  apply bind_inv in H as ([ts st] & o & Hs & H);
  apply scan_token_exact in Hs; cbn [name value] in Hs.

Lemma spec_example_never_assembles I A AS include_source out :
  returns (assemble I A AS spec_example include_source out) = false.
Proof.
  destruct (assemble I A AS spec_example include_source out)
    as [o [p | e |]] eqn:H; try reflexivity. exfalso.
  unfold assemble in H.
  set (lexed := Lexer.lex _) in H. vm_compute in lexed. subst lexed.
  cbv beta iota in H.
  apply except_LexingError_inv in H as [H | (pos & o1 & H)];
    [| now apply error_inv in H].
  apply assemble_tokens_inv in H as (st & out1 & Hscan & Hres & _).
  cbn [length] in Hscan.
  scan_step Hscan. destruct Hs as (vt & n & [= <- <-] & Hn & -> & ->).
  scan_step Hscan. destruct Hs as (-> & -> & ->).
  scan_step Hscan. destruct Hs as (-> & Hs). cbn in Hs. destruct Hs as (-> & ->).
  scan_step Hscan. destruct Hs as (-> & -> & ->).
  scan_step Hscan. destruct Hs as (args & Hg & _ & _ & -> & ->).
  cbn in Hg. injection Hg as <- <-.
  scan_step Hscan. destruct Hs as (-> & Hs). cbn in Hs. destruct Hs as (-> & ->).
  scan_step Hscan. destruct Hs as (-> & -> & ->).
  scan_step Hscan. destruct Hs as (args & Hg & _ & _ & -> & ->).
  cbn in Hg. injection Hg as <- <-.
  scan_step Hscan. destruct Hs as (-> & -> & ->).
  cbn in Hscan. injection Hscan as <- <-.
  cbn [raw_instructions app] in Hres.
  apply Forall2_cons_inv_l in Hres as (i1 & l1 & _ & Hres & _).
  apply Forall2_cons_inv_l in Hres as (i2 & l2 & (o2 & o2' & Hr) & _ & _).
  now rewrite resolve_instruction_no_arguments in Hr.
Qed.

(** The example of the spec does not assemble. With [add] of three
    arguments and [halt] of none in the catalog, the scan ends normally
    with memory 256, [start] at 0, [tick] at 1 and two raw instructions,
    and the resolution of [halt], which has no argument, raises
    [IndexError] when it reads the first one. With any other catalog the
    run ends as well: no catalog makes [assemble] return a program for
    this source, and no raw instruction without arguments resolves. *)
Lemma spec_example_does_not_assemble :
  sample_assemble spec_example false [] = ([], Raise IndexError)
  /\ (exists st,
        sample_scan StopIteration (Py.split_lines spec_example) 15
          (Lexer.lex (spec_example +:+ NL)).1 (initial_scan META) []
        = ([], Return st)
        /\ json_meta st !! "memory" = Some 256
        /\ labels st !! "start" = Some 0
        /\ labels st !! "tick" = Some 1
        /\ length (raw_instructions st) = 2%nat)
  /\ (forall I A AS include_source out,
        returns (assemble I A AS spec_example include_source out) = false)
  /\ (forall AS source_lines include_source labels token out,
        resolve_instruction AS source_lines include_source labels (token, []) out
        = (out, Raise IndexError)).
Proof.
  split; [vm_compute; reflexivity |]. split; [| split].
  - eexists. split; [vm_compute; reflexivity |]. repeat split.
  - apply spec_example_never_assembles.
  - intros. apply resolve_instruction_no_arguments.
Qed.

Lemma resolve_add_1_2_3 AS sl include_source labels token p1 p2 p3 out :
  value token = "add" ->
  resolve_instruction AS sl include_source labels
    (token, [mkToken ADDRESS "$1" p1; mkToken NUMBER "2" p2; mkToken NUMBER "3" p3])
    out
  = (out, Return (mkInstruction "add" [VStr "$1"; VInt 2; VInt 3]
                    (if include_source
                     then Some (line_number (source_pos token))
                     else None))).
Proof.
  intros Hv. unfold resolve_instruction. rewrite Hv.
  erewrite bind_Return by reflexivity.
  erewrite bind_Return by reflexivity.
  cbn [is_int]. rewrite !andb_false_r. reflexivity.
Qed.

(** C1, amended. With the instruction [add $1 2 3] in the place of the
    argument-less [halt], and with any catalog in which [add] takes three
    arguments, the example of the spec assembles without a diagnostic to a
    program whose meta mapping has memory 256, whose [start] is 0, whose
    [tick] is 1 and whose instruction list holds exactly the two resolved
    instructions. *)
Theorem spec_example_with_add_assembles I A AS include_source out :
  "add" ∈ I -> A !! "add" = Some 3 ->
  exists program,
    assemble I A AS spec_example_with_add include_source out
    = (out, Return program)
    /\ meta program !! "memory" = Some 256
    /\ start program = Some 0
    /\ tick program = Some 1
    /\ (mnemonic <$> instructions program) = ["add"; "add"]
    /\ (arguments <$> instructions program)
       = [[VStr "$1"; VInt 2; VInt 3]; [VStr "$1"; VInt 2; VInt 3]].
Proof.
  intros Hin Hcount. eexists. split.
  - unfold assemble.
    set (lexed := Lexer.lex _). vm_compute in lexed. subst lexed.
    set (lines := Py.split_lines _). vm_compute in lines. subst lines.
    cbv beta iota. unfold except_LexingError, assemble_tokens.
    erewrite bind_Return.
    2: { erewrite iterates_scan; cycle 1.
         { econstructor; [vm_compute; reflexivity |].
           econstructor; [vm_compute; reflexivity |].
           econstructor; [vm_compute; reflexivity |].
           econstructor; [vm_compute; reflexivity |].
           econstructor;
             [eapply scan_token_NAME with (args := [_; _; _]);
              [reflexivity | exact Hin | exact Hcount | reflexivity] |].
           econstructor; [vm_compute; reflexivity |].
           econstructor; [vm_compute; reflexivity |].
           econstructor;
             [eapply scan_token_NAME with (args := [_; _; _]);
              [reflexivity | exact Hin | exact Hcount | reflexivity] |].
           econstructor; [vm_compute; reflexivity |].
           apply iterates_nil. }
         reflexivity. }
    cbn [raw_instructions labels app for_each].
    erewrite bind_Return.
    2: { erewrite bind_Return by (now apply resolve_add_1_2_3).
         erewrite bind_Return.
         2: { erewrite bind_Return by (now apply resolve_add_1_2_3).
              reflexivity. }
         reflexivity. }
    erewrite bind_Return by (vm_compute; reflexivity).
    reflexivity.
  - cbn. repeat split; vm_compute; reflexivity.
Qed.

(** ** A number of more digits than [int] converts *)


(** ** The lexer *)

(** A lexeme that starts with a digit is a NUMBER, whatever follows: the
    NUMBER rule comes before the LABEL_NAME rule. *)
Lemma digit_start_is_NUMBER c s n lexeme rest :
  Lexer.is_digit c = true ->
  Lexer.first_match Lexer.rules (String c s) = Some (n, lexeme, rest) ->
  n = NUMBER.
Proof.
  intros Hd. unfold Lexer.rules. cbn [Lexer.first_match].
  assert (Lexer.match_META_VARIABLE (String c s) = None) as ->.
  { destruct c as [[] [] [] [] [] [] [] []]; try discriminate; reflexivity. }
  assert (exists r, Lexer.match_NUMBER (String c s) = Some r) as [[lx rs] ->].
  { assert (Lexer.match_NUMBER (String c s)
            = Lexer.plus Lexer.is_digit (String c s)) as ->.
    { destruct c as [[] [] [] [] [] [] [] []]; try discriminate; reflexivity. }
    unfold Lexer.plus. cbn [Lexer.span]. rewrite Hd.
    destruct (Lexer.span Lexer.is_digit s). eauto. }
  now intros [= <- _ _].
Qed.

(** C8. The lexer makes a LABEL_NAME of [[x:], whose part before the colon
    is not an identifier of letters, digits and underscores: the range
    [A-z] of the rule also holds the six characters between [Z] and [a].
    The other half of the claim holds: a lexeme that starts with a digit
    is never a LABEL_NAME. *)
Theorem bracket_label_is_LABEL_NAME :
  Lexer.lex ("[x:" +:+ NL)
  = ([mkToken LABEL_NAME "[x:" (mkPos 0 1 1); mkToken NEWLINE NL (mkPos 3 1 4)],
     None)
  /\ is_identifier "[x" = false
  /\ (forall c s n lexeme rest,
        Lexer.is_digit c = true ->
        Lexer.first_match Lexer.rules (String c s) = Some (n, lexeme, rest) ->
        n <> LABEL_NAME).
Proof.
  split; [vm_compute; reflexivity |]. split; [reflexivity |].
  intros c s n lexeme rest Hd H.
  now rewrite (digit_start_is_NUMBER _ _ _ _ _ Hd H).
Qed.

(** ** The caret of the diagnostics *)

(** C9. For a token on line 10 the line is shown behind the five
    characters [10 | ], but the caret line has only four blanks before the
    blanks of the column: its width comes from the digits of 9, the 0-based
    line number. [warn] and [error] on a label in the first column of line
    10 put the caret under the blank before the label. *)
Theorem caret_of_line_10_is_one_short :
  (forall i c line,
     shown_line (mkPos i 10 c) line = "10 | " +:+ line /\
     caret_line (mkPos i 10 c) = Py.mul " " (4 + (Z.of_nat c - 1)) +:+ "^")
  /\ warn (mkPos 0 10 1) ten_lines "m" []
     = ([line_of (COLOR_WARN +:+ "ASSEMBLER WARNING: m");
         line_of "10 | foo:"; line_of "    ^"; COLOR_RESET],
        Return tt)
  /\ @error unit (mkPos 0 10 1) ten_lines "m" []
     = ([line_of (COLOR_ERROR +:+ "ASSEMBLER ERROR: m");
         line_of "10 | foo:"; line_of "    ^"; COLOR_RESET],
        Raise SystemExit).
Proof.
  split; [| split]; [| vm_compute; reflexivity | vm_compute; reflexivity].
  intros i c line. split; reflexivity.
Qed.

(** * The claims at concrete inputs *)

Lemma in_sample_INSTRUCTIONS_add : "add" ∈ sample_INSTRUCTIONS.
Proof. unfold sample_INSTRUCTIONS. set_solver. Qed.

(** The loop of [two_uses_source] up to the second declaration of
    [start]. *)
Lemma iterates_to_second_start :
  sample_iterates StopIteration two_uses_lines
    two_uses_tokens (initial_scan META) []
    (take 3 two_uses_tokens)
    (second_start :: drop 9 two_uses_tokens) state_before_second_start [].
Proof.
  repeat (econstructor; [vm_compute; reflexivity |]).
  apply iterates_nil.
Defined.

(** The same loop up to the declaration of [tick]. *)
Lemma iterates_to_first_tick :
  exists st out,
    sample_iterates StopIteration two_uses_lines
      two_uses_tokens (initial_scan META) []
      (take 3 two_uses_tokens ++ take 2 (drop 8 two_uses_tokens))
      (first_tick :: drop 11 two_uses_tokens) st out.
Proof.
  eexists _, _.
  repeat (econstructor; [vm_compute; reflexivity |]).
  apply iterates_nil.
Defined.

Lemma spec_example_with_add_witness :
  exists program,
    sample_assemble spec_example_with_add false [] = ([], Return program)
    /\ meta program !! "memory" = Some 256
    /\ start program = Some 0
    /\ tick program = Some 1
    /\ (mnemonic <$> instructions program) = ["add"; "add"]
    /\ (arguments <$> instructions program)
       = [[VStr "$1"; VInt 2; VInt 3]; [VStr "$1"; VInt 2; VInt 3]].
Proof.
  apply (spec_example_with_add_assembles
           sample_INSTRUCTIONS sample_ARGUMENT_COUNT_LOOKUP
           sample_ASSIGNMENT_INSTRUCTIONS false []).
  - exact in_sample_INSTRUCTIONS_add.
  - vm_compute. reflexivity.
Defined.

Lemma redeclared_label_witness :
  exists before first after,
    take 3 two_uses_tokens = before ++ first :: after /\
    declares "start" first /\
    ~ Exists (declares "start") before /\
    labels state_before_second_start !! "start" = Some 0 /\
    sample_scan_token StopIteration two_uses_lines
      second_start (drop 9 two_uses_tokens) state_before_second_start []
    = (warn_report (source_pos second_start) "start:"
         (duplicate_label_message "start"),
       Return (drop 9 two_uses_tokens,
               mkScan (json_meta state_before_second_start)
                 (labels state_before_second_start)
                 (raw_instructions state_before_second_start)
                 (instruction_index state_before_second_start) PROCEDURES)) /\
    labels two_uses_final !! "start" = Some 0.
Proof.
  destruct (redeclared_label_keeps_first_index
              sample_INSTRUCTIONS sample_ARGUMENT_COUNT_LOOKUP StopIteration
              two_uses_lines two_uses_tokens META [] (take 3 two_uses_tokens)
              second_start (drop 9 two_uses_tokens) state_before_second_start []
              "start:" iterates_to_second_start eq_refl)
    as (before & first & after & Heq & Hfirst & Hbefore & Hindex & Hstep & Hfinal).
  - apply Exists_cons_hd. split; reflexivity.
  - reflexivity.
  - exists before, first, after.
    assert (before = []) as ->.
    { destruct before as [| t before]; [done |]. exfalso. apply Hbefore.
      injection Heq as <- _. apply Exists_cons_hd. split; reflexivity. }
    split; [exact Heq |]. split; [exact Hfirst |]. split; [exact Hbefore |].
    split; [exact Hindex |]. split; [exact Hstep |].
    eapply (Hfinal _ two_uses_final (mkToken NAME "start" (mkPos 0 1 1)) []);
      [vm_compute | |]; reflexivity.
Defined.

Lemma label_index_witness :
  labels two_uses_final !! "tick" = Some 1.
Proof.
  destruct iterates_to_first_tick as (st & out & Hrun).
  apply (label_index_counts_instruction_lines
           sample_INSTRUCTIONS sample_ARGUMENT_COUNT_LOOKUP StopIteration
           two_uses_lines two_uses_tokens META []
           (take 3 two_uses_tokens ++ take 2 (drop 8 two_uses_tokens))
           first_tick (drop 11 two_uses_tokens) st out
           (warn_report (source_pos second_start) "start:"
              (duplicate_label_message "start"))
           two_uses_final).
  - vm_compute. reflexivity.
  - exact Hrun.
  - reflexivity.
  - intros H. vm_compute in H.
    repeat (apply Exists_cons in H as [[H1 H2] | H];
            [try discriminate H1; try discriminate H2 |]).
    now apply Exists_nil in H.
Defined.

Lemma label_uses_witness :
  exists st out1,
    sample_scan StopIteration two_uses_lines (length two_uses_tokens)
      two_uses_tokens (initial_scan META) []
    = (out1, Return st) /\
    labels st !! "tick" = Some 1 /\
    (arguments <$> instructions two_uses_program !! 0%nat)
    = Some [VStr "$1"; VInt 1; VInt 3] /\
    (arguments <$> instructions two_uses_program !! 1%nat)
    = Some [VStr "$2"; VInt 1; VInt 0].
Proof.
  destruct (label_uses_resolve_alike
              sample_INSTRUCTIONS sample_ARGUMENT_COUNT_LOOKUP
              sample_ASSIGNMENT_INSTRUCTIONS StopIteration two_uses_lines
              two_uses_tokens META false []
              (warn_report (source_pos second_start) "start:"
                 (duplicate_label_message "start"))
              two_uses_program)
    as (st & out1 & Hscan & Hlen & Huses).
  - vm_compute. reflexivity.
  - exists st, out1. split; [exact Hscan |].
    assert (st = two_uses_final) as ->.
    { assert (sample_scan StopIteration two_uses_lines (length two_uses_tokens)
                two_uses_tokens (initial_scan META) []
              = (warn_report (source_pos second_start) "start:"
                   (duplicate_label_message "start"), Return two_uses_final))
        as E by (vm_compute; reflexivity).
      rewrite E in Hscan. now injection Hscan. }
    split; [reflexivity |]. split; reflexivity.
Defined.


Lemma address_text_witness :
  parse_argument_token [" add $5 1 2"] (mkToken ADDRESS "$5" (mkPos 5 1 6)) ∅ []
  = ([], Return (VStr "$5"))
  /\ VStr "$5" <> VInt 5
  /\ is_int (VStr "$5") = false.
Proof.
  apply (address_keeps_token_text [" add $5 1 2"]
           (mkToken ADDRESS "$5" (mkPos 5 1 6)) ∅ [] 5);
    [reflexivity | reflexivity | lia].
Defined.

Lemma wrong_argument_count_witness :
  let add := mkToken NAME "add" (mkPos 1 1 2) in
  let line := [mkToken ADDRESS "$1" (mkPos 5 1 6);
               mkToken NUMBER "2" (mkPos 8 1 9);
               mkToken COMMENT "; one short" (mkPos 10 1 11)] in
  let newline := mkToken NEWLINE NL (mkPos 21 1 22) in
  sample_scan_token StopIteration [" add $1 2 ; one short"]
    add (line ++ newline :: []) (initial_scan META) []
  = (error_report (source_pos add) " add $1 2 ; one short"
       ("Expected 3 argument(s) for instruction " +:+ quoted "add"
          +:+ " but got 2."),
     Raise SystemExit)
  /\ sample_scan StopIteration [" add $1 2 ; one short"]
       5 (add :: line ++ newline :: []) (initial_scan META) []
     = (error_report (source_pos add) " add $1 2 ; one short"
          ("Expected 3 argument(s) for instruction " +:+ quoted "add"
             +:+ " but got 2."),
        Raise SystemExit).
Proof.
  intros add line newline.
  apply (wrong_argument_count_is_fatal
           sample_INSTRUCTIONS sample_ARGUMENT_COUNT_LOOKUP StopIteration
           [" add $1 2 ; one short"] add line newline [] (initial_scan META) []
           3 " add $1 2 ; one short" 4).
  - reflexivity.
  - exact in_sample_INSTRUCTIONS_add.
  - vm_compute. reflexivity.
  - repeat constructor; discriminate.
  - reflexivity.
  - vm_compute. discriminate.
  - reflexivity.
Defined.

Lemma label_bounds_witness :
  sample_assemble_tokens StopIteration two_uses_lines two_uses_tokens META false []
  = (warn_report (source_pos second_start) "start:"
       (duplicate_label_message "start"),
     Return two_uses_program)
  /\ length (instructions two_uses_program) = 2%nat
  /\ tick two_uses_program = Some 1
  /\ start two_uses_program = Some 0
  /\ labels two_uses_final !! "end" = Some 2
  /\ (forall v, tick two_uses_program = Some v -> 0 <= v <= 2)
  /\ (forall v, start two_uses_program = Some v -> 0 <= v <= 2).
Proof.
  assert (sample_assemble_tokens StopIteration two_uses_lines two_uses_tokens
            META false []
          = (warn_report (source_pos second_start) "start:"
               (duplicate_label_message "start"),
             Return two_uses_program)) as H by (vm_compute; reflexivity).
  split; [exact H |].
  destruct (label_indices_within_instruction_count
              sample_INSTRUCTIONS sample_ARGUMENT_COUNT_LOOKUP
              sample_ASSIGNMENT_INSTRUCTIONS StopIteration two_uses_lines
              two_uses_tokens META false [] _ two_uses_program H)
    as (_ & Htick & Hstart & _).
  split; [reflexivity |]. split; [reflexivity |]. split; [reflexivity |].
  split; [reflexivity |]. split; [exact Htick | exact Hstart].
Defined.
